(** * kirikei: the known-service reconciliation pipeline

    A shallow embedding of the Python scripts [scrape.py], [search.py],
    [recall_services.py] and [details_services.py], and the properties of
    the pipeline stated over it.

    Conventions.
    - A Python [str] is a sequence of Unicode code points: [list N].
    - A JSON object with a fixed schema is a record; a field the code
      compares with [None] has an [option] type.
    - Code that touches the file system, the network or the console is a
      function on an explicit [State] that carries the two cache files and
      the trace of effects performed so far. *)

From Stdlib Require Import PrimFloat Ascii String.
From stdpp Require Import base list gmap sets strings.

#[local] Set Warnings "-clear-no-such-hyp".

Module Str.

(** A Python string, as its code points. *)
Abbreviation str := (list N).

(** An ASCII literal as a [str]. *)
Definition of_ascii (s : string) : str :=
  Ascii.N_of_ascii <$> list_ascii_of_string s.

(** The full-width left parenthesis, U+FF08. *)
Definition fullwidth_lparen : N := 65288%N.

(** [str.isspace] on one code point: the characters [str.strip] removes. *)
Definition isspace (c : N) : bool :=
  ((9 <=? c) && (c <=? 13) || (28 <=? c) && (c <=? 32)
   || (c =? 133) || (c =? 160) || (c =? 5760)
   || (8192 <=? c) && (c <=? 8202)
   || (c =? 8232) || (c =? 8233) || (c =? 8239) || (c =? 8287)
   || (c =? 12288))%N.

Fixpoint lstrip (s : str) : str :=
  match s with
  | [] => []
  | c :: s' => if isspace c then lstrip s' else s
  end.

Definition rstrip (s : str) : str := reverse (lstrip (reverse s)).

(** [s.strip()] *)
Definition strip (s : str) : str := rstrip (lstrip s).

(** [s.split(sep)[0]] for a one-character [sep]: the text before the first
    occurrence of [sep], the whole string when there is none. *)
Fixpoint split_head (sep : N) (s : str) : str :=
  match s with
  | [] => []
  | c :: s' => if (c =? sep)%N then [] else c :: split_head sep s'
  end.

(** [sep in s] for a one-character [sep]. *)
Definition contains_char (sep : N) (s : str) : bool :=
  existsb (λ c, (c =? sep)%N) s.

(** [needle in hay] on strings: substring search. *)
Fixpoint is_prefix (p s : str) : bool :=
  match p, s with
  | [], _ => true
  | _ :: _, [] => false
  | a :: p', b :: s' => (a =? b)%N && is_prefix p' s'
  end.

Fixpoint is_substring (needle hay : str) : bool :=
  is_prefix needle hay ||
  match hay with
  | [] => false
  | _ :: hay' => is_substring needle hay'
  end.

(** [str.lower] restricted to what it does on ASCII text: A-Z to a-z. *)
Definition ascii_lower (s : str) : str :=
  (λ c, if ((65 <=? c) && (c <=? 90))%N then (c + 32)%N else c) <$> s.

End Str.

Import Str.

(** ** Effects shared by the two cache-backed providers *)

Module Effects.

Inductive Exn :=
| FileNotFoundError
| JSONDecodeError
| RequestException
| OtherException.

(** How a call ends: [return v] or an exception that propagates. *)
Inductive Outcome (A : Type) :=
| Returned (v : A)
| Raised (e : Exn).
Arguments Returned {A} v.
Arguments Raised {A} e.

(** What [json.load] finds in a file that exists. *)
Inductive JsonFile (A : Type) :=
| Parsed (v : A)
| Malformed.
Arguments Parsed {A} v.
Arguments Malformed {A}.

Inductive File := bi_services_json | search_results_json.

(** The [print] calls of scrape.py and search.py. *)
Inductive Message :=
| MsgForcedScrape            (* scrape.py line 30 *)
| MsgPageError (i : Z)       (* scrape.py line 53 *)
| MsgScrapeFromCache         (* scrape.py line 62 *)
| MsgScrapeCacheMissing      (* scrape.py line 68 *)
| MsgServiceCount (n : nat)  (* scrape.py line 71 *)
| MsgBadNumResults           (* search.py line 21 *)
| MsgForcedSearch            (* search.py line 33 *)
| MsgNoItems (start : Z)     (* search.py line 55 *)
| MsgSearchFailed (e : Exn)  (* search.py lines 59, 62, 65 *)
| MsgSearchFromCache         (* search.py line 77 *)
| MsgSearchCacheMissing.     (* search.py line 83 *)

(** Everything a provider does besides computing, in program order. *)
Inductive Event :=
| Print (m : Message)
| LoadDotenv
| HttpGetPage (i : Z)
| HttpGetSearch (start num : Z)
| OpenRead (f : File)
| OpenWrite (f : File).

(** Python's [range(start, stop)] and [range(start, stop, step)], [step > 0]. *)
Definition range (start stop : Z) : list Z := seqZ start (stop - start).

Definition range_step (start stop step : Z) : list Z :=
  (λ k : nat, start + Z.of_nat k * step)%Z
    <$> seq 0 (Z.to_nat ((stop - start + step - 1) / step)).

(** Is this event a request to the network? *)
Definition is_http (e : Event) : bool :=
  match e with
  | HttpGetPage _ | HttpGetSearch _ _ => true
  | _ => false
  end.

(** Is this event one of the page loop of scrape.py? *)
Definition is_page_event (e : Event) : bool :=
  match e with
  | HttpGetPage _ | Print (MsgPageError _) => true
  | _ => false
  end.

(** Is this event one of the request loop of search.py? *)
Definition is_request_event (e : Event) : bool :=
  match e with
  | HttpGetSearch _ _ | Print (MsgNoItems _) | Print (MsgSearchFailed _) => true
  | _ => false
  end.

(** Is this event an access to a cache file? *)
Definition is_file_access (e : Event) : bool :=
  match e with
  | OpenRead _ | OpenWrite _ => true
  | _ => false
  end.

End Effects.

Import Effects.

(** ** scrape.py *)

Module Scrape.

(** [if '（' in service_name: service_name = service_name.split('（')[0].strip()]
    (lines 46-47); the name is left as it is otherwise. *)
Definition strip_parenthetical (service_name : str) : str :=
  if contains_char fullwidth_lparen service_name
  then strip (split_head fullwidth_lparen service_name)
  else service_name.

(** One product card: the text of its anchor, [None] when
    [p.find('a', text=True).string] raises or yields [None] (the test
    ['（' in service_name] then raises). *)
Definition Card : Type := option (list N).

(** One listing page: [requests.get] or the parser raised, or the cards. *)
Inductive PageResponse :=
| PageError
| PageCards (cards : list Card).

(** The catalog site: the answer to a request for page [i]. *)
Definition Catalog : Type := Z → PageResponse.

Record State := mkState {
  bi_services : option (JsonFile (list (list N)));
  trace : list Event
}.

Definition log (e : Event) (st : State) : State :=
  mkState (bi_services st) (trace st ++ [e]).

(** The inner loop (lines 42-49): the list after the cards processed, and
    whether a card raised. *)
Fixpoint process_cards (product_cards : list Card) (service_list : list (list N))
  : list (list N) * bool :=
  match product_cards with
  | [] => (service_list, false)
  | None :: _ => (service_list, true)
  | Some service_name :: rest =>
      process_cards rest (service_list ++ [strip_parenthetical service_name])
  end.

(** The page loop (lines 32-55) over the pages still to visit. *)
Fixpoint scrape_pages (site : Catalog) (pages : list Z)
    (service_list : list (list N)) (tr : list Event)
  : list (list N) * list Event :=
  match pages with
  | [] => (service_list, tr)
  | i :: rest =>
      let tr := tr ++ [HttpGetPage i] in
      match site i with
      | PageError => (service_list, tr ++ [Print (MsgPageError i)])
      | PageCards product_cards =>
          let '(service_list, raised) := process_cards product_cards service_list in
          if raised then (service_list, tr ++ [Print (MsgPageError i)])
          else scrape_pages site rest service_list tr
      end
  end.

(** [get_bi_service_list(forced)]. [fuel] bounds the depth of the call
    stack: [None] means the bound was reached. *)
Fixpoint get_bi_service_list (fuel : nat) (site : Catalog) (forced : bool)
    (st : State) : option (Outcome (list (list N)) * State) :=
  match fuel with
  | O => None
  | S fuel =>
      if forced then
        let st := log (Print MsgForcedScrape) st in
        let '(service_list, tr) := scrape_pages site (range 1 15) [] (trace st) in
        let st := mkState (Some (Parsed service_list))
                          (tr ++ [OpenWrite bi_services_json]) in
        let st := log (Print (MsgServiceCount (length service_list))) st in
        Some (Returned service_list, st)
      else
        let st := log (Print MsgScrapeFromCache) st in
        let st := log (OpenRead bi_services_json) st in
        match bi_services st with
        | None =>
            let st := log (Print MsgScrapeCacheMissing) st in
            get_bi_service_list fuel site true st
        | Some Malformed => Some (Raised JSONDecodeError, st)
        | Some (Parsed service_list) =>
            let st := log (Print (MsgServiceCount (length service_list))) st in
            Some (Returned service_list, st)
        end
  end.

End Scrape.

(** ** search.py *)

Module Search.

(** One item of the search API's answer; the pipeline reads [title] and
    [snippet], and prints [link]. *)
Record SearchResult := mkResult { title : str; link : str; snippet : str }.

(** The request parameters built at lines 39-45. *)
Record Params := mkParams {
  key : option str;
  cx : option str;
  q : str;
  start : Z;
  num : Z
}.

(** What one request comes to: an exception of one of the three handled
    kinds, an answer without ["items"], or the items. *)
Inductive Response :=
| Failed (e : Exn)
| NoItems
| Items (items : list SearchResult).

Record World := mkWorld {
  CUSTOM_SEARCH_API_KEY : option str;
  CX_ID_KEY : option str;
  api : Params → Response
}.

Record State := mkState {
  search_results : option (JsonFile (list SearchResult));
  trace : list Event
}.

Definition log (e : Event) (st : State) : State :=
  mkState (search_results st) (trace st ++ [e]).

(** The request loop (lines 37-70) over the offsets still to visit. *)
Fixpoint search_pages (w : World) (query : str) (num_results : Z)
    (offsets : list Z) (results : list SearchResult) (tr : list Event)
  : list SearchResult * list Event :=
  match offsets with
  | [] => (results, tr)
  | i :: rest =>
      let start_index := (i + 1)%Z in
      let params := mkParams (CUSTOM_SEARCH_API_KEY w) (CX_ID_KEY w) query
                             start_index (Z.min 10 (num_results - i)) in
      let tr := tr ++ [HttpGetSearch (start params) (num params)] in
      match api w params with
      | Failed e => (results, tr ++ [Print (MsgSearchFailed e)])
      | NoItems => (results, tr ++ [Print (MsgNoItems start_index)])
      | Items items =>
          let results := results ++ items in
          if (num_results <=? Z.of_nat (length results))%Z then (results, tr)
          else search_pages w query num_results rest results tr
      end
  end.

(** [results[:num_results]] for [num_results >= 0]. *)
Definition truncate (num_results : Z) (results : list SearchResult)
  : list SearchResult :=
  take (Z.to_nat num_results) results.

(** [get_google_search_results(query, num_results, forced)]. [fuel] bounds
    the depth of the call stack: [None] means the bound was reached. *)
Fixpoint get_google_search_results (fuel : nat) (w : World) (query : str)
    (num_results : Z) (forced : bool) (st : State)
  : option (Outcome (list SearchResult) * State) :=
  match fuel with
  | O => None
  | S fuel =>
      if negb ((1 <=? num_results)%Z && (num_results <=? 100)%Z) then
        Some (Returned [], log (Print MsgBadNumResults) st)
      else
        let st := log LoadDotenv st in
        if forced then
          let st := log (Print MsgForcedSearch) st in
          let '(results, tr) :=
            search_pages w query num_results (range_step 0 num_results 10)
                         [] (trace st) in
          let st := mkState (Some (Parsed results))
                            (tr ++ [OpenWrite search_results_json]) in
          Some (Returned (truncate num_results results), st)
        else
          let st := log (Print MsgSearchFromCache) st in
          let st := log (OpenRead search_results_json) st in
          match search_results st with
          | None =>
              let st := log (Print MsgSearchCacheMissing) st in
              get_google_search_results fuel w query num_results true st
          | Some Malformed => Some (Raised JSONDecodeError, st)
          | Some (Parsed results) =>
              Some (Returned (truncate num_results results), st)
          end
  end.

End Search.

(** ** recall_services.py *)

Module Recall.

(** A record of the pipeline: [dict(service_name=..., know=...)]. *)
Record Service := mkService { service_name : str; know : bool }.

(** A record of the model's raw answer: either field may be JSON [null]. *)
Record RawService := mkRaw {
  raw_service_name : option str;
  raw_know : option bool
}.

(** Truth value of [item['service_name']]: [None] and [''] are false. *)
Definition truthy (name : option str) : bool :=
  match name with
  | Some (_ :: _) => true
  | _ => false
  end.

(** One iteration of the loop of lines 59-61. *)
Definition post_filter_step (service_know_gemini : list Service)
    (item : RawService) : list Service :=
  match raw_service_name item, raw_know item with
  | Some name, Some b =>
      if truthy (Some name) then service_know_gemini ++ [mkService name b]
      else service_know_gemini
  | _, _ => service_know_gemini
  end.

(** Lines 58-63 of [get_services_from_gemini], on the parsed answer. *)
Definition post_filter (response : list RawService) : list Service :=
  foldl post_filter_step [] response.

(** [get_services_from_gemini(services_list)]: [llm] is the model's answer
    to the prompt built from the names, [None] when [json.loads] rejects
    it. *)
Definition get_services_from_gemini
    (llm : list str → option (list RawService)) (services_list : list str)
  : Outcome (list Service) :=
  match llm services_list with
  | None => Raised JSONDecodeError
  | Some response => Returned (post_filter response)
  end.

Section CheckSearch.

(** [str.lower] of the Python runtime. *)
Variable lower : str → str.

(** The generator of line 75 for one result. *)
Definition mentions (service : str) (result : Search.SearchResult) : bool :=
  is_substring (lower service) (lower (Search.title result))
  || is_substring (lower service) (lower (Search.snippet result)).

(** [check_services_in_search(services_list, search_results)] *)
Definition check_services_in_search (services_list : list str)
    (search_results : list Search.SearchResult) : list Service :=
  foldl (λ service_know_search service,
           let know := existsb (mentions service) search_results in
           service_know_search ++ [mkService service know])
        [] services_list.

End CheckSearch.

(** [set([s['service_name'] for s in records if s['know']])] *)
Definition known_set (records : list Service) : gset str :=
  list_to_set (service_name <$> filter (λ s, know s = true) records).

(** The dictionary [venn_labels] of lines 105-109. *)
Record VennLabels := mkVenn { label_10 : nat; label_01 : nat; label_11 : nat }.

Definition venn_labels (set_gemini set_search : gset str) : VennLabels :=
  {| label_10 := size (set_gemini ∖ set_search);
     label_01 := size (set_search ∖ set_gemini);
     label_11 := size (set_gemini ∩ set_search) |}.

End Recall.

(** ** details_services.py *)

Module Details.

Record ServiceScore := mkScore { service_name : str; score : float }.

(** [dict(service_name=service, score=0.0)] *)
Definition zero_record (service : str) : ServiceScore :=
  mkScore service 0%float.

(** One iteration of the loop of lines 140-142. *)
Definition zero_fill_step (services_scores : list ServiceScore) (service : str)
  : list ServiceScore :=
  if decide (service ∈ service_name <$> services_scores)
  then services_scores
  else services_scores ++ [zero_record service].

(** [for service in service_list: ...] of lines 140-142. *)
Definition zero_fill (service_list : list str)
    (services_scores : list ServiceScore) : list ServiceScore :=
  foldl zero_fill_step services_scores service_list.

(** The names for which the loop appends a record, in the order it does,
    given the names already [seen] in [services_scores]. *)
Fixpoint appended (seen names : list str) : list str :=
  match names with
  | [] => []
  | n :: names =>
      if decide (n ∈ seen) then appended seen names
      else n :: appended (seen ++ [n]) names
  end.

(** [remove_unknown_services]: the names of the records marked known. *)
Definition remove_unknown_services (service_details : list Recall.Service)
  : list str :=
  Recall.service_name <$> filter (λ s, Recall.know s = true) service_details.

End Details.

(** ** Sample inputs *)

Module Sample.

(** A catalog whose first page lists two products, whose second page has a
    card without anchor text after one product, and that fails beyond. *)
Definition site : Scrape.Catalog := λ i,
  if (i =? 1)%Z then
    Scrape.PageCards
      [Some (of_ascii "Tableau");
       Some (of_ascii "Domo " ++ [fullwidth_lparen] ++ of_ascii "BI")]
  else if (i =? 2)%Z then
    Scrape.PageCards [Some (of_ascii "Looker"); None; Some (of_ascii "Qlik")]
  else Scrape.PageError.

Definition good_cards : Z → list str := λ i,
  if (i =? 1)%Z then
    [of_ascii "Tableau"; of_ascii "Domo " ++ [fullwidth_lparen] ++ of_ascii "BI"]
  else [].

(** No cache file, nothing done yet. *)
Definition no_list_cache : Scrape.State := Scrape.mkState None [].
Definition no_search_cache : Search.State := Search.mkState None [].

Definition tableau : Search.SearchResult :=
  Search.mkResult (of_ascii "Tableau Software")
                  (of_ascii "https://www.tableau.com")
                  (of_ascii "Business intelligence and analytics").

(** A search service without credentials that answers every request with
    the same single item. *)
Definition world : Search.World :=
  Search.mkWorld None None (λ _, Search.Items [tableau]).

End Sample.

(** ** Further sample inputs *)

Module Sample2.

(** A catalog of which every page lists the same single product. *)
Definition steady_site : Scrape.Catalog := λ _,
  Scrape.PageCards [Some (of_ascii "Tableau")].

(** A search service that fails on every request. *)
Definition down : Search.World :=
  Search.mkWorld None None (λ _, Search.Failed RequestException).

(** A search service that answers each request with as many copies of one
    item as the request asks for. *)
Definition obliging : Search.World :=
  Search.mkWorld None None
    (λ p, Search.Items (replicate (Z.to_nat (Search.num p)) Sample.tableau)).

End Sample2.

(** ** details_services.py: the script (lines 119-146) *)

Module Pipeline.

(** A record of the detail answer, [ServiceDetail]; the model may answer
    [null] for what it does not know. The script passes these records on
    as they are. *)
Record ServiceDetail := mkDetail {
  service_name : str;
  url : option str;
  company : option str;
  explanation : list str
}.

(** The three requests to the model, each with the parsed answer or
    [None] when [json.loads] rejects the answer. *)
Record Llm := mkLlm {
  recall : list str → option (list Recall.RawService);
  describe : list str → option (list ServiceDetail);
  verify : list ServiceDetail → option (list Details.ServiceScore)
}.

(** What the script does besides computing, in program order. *)
Inductive Step :=
| AskRecall (names : list str)
| AskDetails (names : list str)
| WriteDetails (details : list ServiceDetail)
| AskScores (details : list ServiceDetail)
| WriteScores (scores : list Details.ServiceScore).

(** [get_service_details_from_gemini] and [check_details]: the parsed
    answer, or the error of [json.loads]. *)
Definition get_service_details_from_gemini (llm : Llm)
    (services_list : list str) : Outcome (list ServiceDetail) :=
  match describe llm services_list with
  | None => Raised JSONDecodeError
  | Some response => Returned response
  end.

Definition check_details (llm : Llm) (service_details : list ServiceDetail)
  : Outcome (list Details.ServiceScore) :=
  match verify llm service_details with
  | None => Raised JSONDecodeError
  | Some response => Returned response
  end.

(** Lines 123-146, from the service list obtained at line 121 to the
    writing of the scores file; the histogram is drawn after that. *)
Definition main (llm : Llm) (service_list : list str)
  : Outcome (list Details.ServiceScore) * list Step :=
  let steps := [AskRecall service_list] in
  match Recall.get_services_from_gemini (recall llm) service_list with
  | Raised e => (Raised e, steps)
  | Returned service_list_gemini =>
      let known_service_list :=
        Details.remove_unknown_services service_list_gemini in
      let steps := steps ++ [AskDetails known_service_list] in
      match get_service_details_from_gemini llm known_service_list with
      | Raised e => (Raised e, steps)
      | Returned service_details_gemini =>
          let steps := steps ++ [WriteDetails service_details_gemini] in
          let steps := steps ++ [AskScores service_details_gemini] in
          match check_details llm service_details_gemini with
          | Raised e => (Raised e, steps)
          | Returned services_scores =>
              let services_scores :=
                Details.zero_fill service_list services_scores in
              (Returned services_scores,
               steps ++ [WriteScores services_scores])
          end
      end
  end.


End Pipeline.

(** A model that knows A and B, answers [null] for C, describes what it
    is asked about and scores A with 4 and B with 2. *)
Module Sample3.

Definition llm : Pipeline.Llm :=
  Pipeline.mkLlm
    (λ names, Some [Recall.mkRaw (Some (of_ascii "A")) (Some true);
                    Recall.mkRaw (Some (of_ascii "B")) (Some true);
                    Recall.mkRaw (Some (of_ascii "C")) None])
    (λ names, Some ((λ n, Pipeline.mkDetail n None None []) <$> names))
    (λ details, Some [Details.mkScore (of_ascii "A") 4%float;
                      Details.mkScore (of_ascii "B") 2%float]).


Definition names : list str := [of_ascii "A"; of_ascii "B"; of_ascii "C"].

End Sample3.

(** * Properties *)

Import Scrape Search Recall Details.

(** ** Strings *)

Section Strings.

Implicit Types (s t : str) (c sep : N).

Lemma contains_char_elem sep s : contains_char sep s = true ↔ sep ∈ s.
Proof.
  unfold contains_char. induction s as [|c s IH]; simpl.
  - split; [done|]. by intros ?%elem_of_nil.
  - rewrite orb_true_iff, IH, elem_of_cons, N.eqb_eq. naive_solver.
Qed.

Lemma split_head_cut sep s :
  sep ∈ s →
  ∃ rest, s = split_head sep s ++ sep :: rest ∧ sep ∉ split_head sep s.
Proof.
  induction s as [|c s IH]; simpl.
  - by intros ?%elem_of_nil.
  - intros Hin. destruct (N.eqb_spec c sep) as [->|Hne].
    + exists s. split; [done|]. apply not_elem_of_nil.
    + apply elem_of_cons in Hin as [->|Hin]; [done|].
      destruct (IH Hin) as (rest & Heq & Hnot).
      exists rest. split; [simpl; congruence|].
      rewrite not_elem_of_cons. split; [congruence|done].
Qed.

Lemma lstrip_cut s :
  ∃ lead, s = lead ++ lstrip s
        ∧ Forall (λ c, isspace c = true) lead
        ∧ ∀ c, head (lstrip s) = Some c → isspace c = false.
Proof.
  induction s as [|c s (lead & Heq & Hlead & Hhead)]; simpl.
  - exists []. split_and!; [done|constructor|done].
  - destruct (isspace c) eqn:Hc.
    + exists (c :: lead). split_and!; [simpl; congruence|by constructor|done].
    + exists []. split_and!; [done|constructor|]. simpl. congruence.
Qed.

Lemma strip_cut s :
  ∃ lead trail, s = lead ++ strip s ++ trail
        ∧ Forall (λ c, isspace c = true) lead
        ∧ Forall (λ c, isspace c = true) trail
        ∧ (∀ c, head (strip s) = Some c → isspace c = false)
        ∧ (∀ c, last (strip s) = Some c → isspace c = false).
Proof.
  destruct (lstrip_cut s) as (lead & Hs & Hlead & Hhead).
  destruct (lstrip_cut (reverse (lstrip s))) as (tl & Hr & Htl & Hlast).
  exists lead, (reverse tl). unfold strip, rstrip. split_and!.
  - rewrite <- reverse_app, <- Hr, reverse_involutive. done.
  - done.
  - by apply Forall_reverse.
  - intros c Hc. apply Hhead.
    apply (f_equal reverse) in Hr. rewrite reverse_involutive, reverse_app in Hr.
    rewrite Hr. destruct (reverse (lstrip (reverse (lstrip s)))); [done|].
    simpl in *. done.
  - intros c Hc. apply Hlast. by rewrite <- last_reverse, Hc.
Qed.

Lemma strip_elem s c : c ∈ strip s → c ∈ s.
Proof.
  destruct (strip_cut s) as (lead & trail & Hs & _).
  intros Hc. rewrite Hs, !elem_of_app. auto.
Qed.

End Strings.

(** ** Score completion (details_services.py, lines 139-142) *)

Section ZeroFill.

Implicit Types (names seen : list str) (scores : list ServiceScore).

Lemma zero_fill_appended names scores :
  zero_fill names scores
  = scores ++ (zero_record <$> appended (Details.service_name <$> scores) names).
Proof.
  revert scores. induction names as [|n names IH]; intros scores; simpl.
  - by rewrite app_nil_r.
  - unfold zero_fill in *. simpl. unfold zero_fill_step at 2.
    destruct (decide (n ∈ Details.service_name <$> scores)) as [Hin|Hin].
    + apply IH.
    + rewrite IH, fmap_app. simpl. by rewrite <- app_assoc.
Qed.

Lemma appended_elem seen names n :
  n ∈ appended seen names ↔ n ∈ names ∧ n ∉ seen.
Proof.
  revert seen. induction names as [|x names IH]; intros seen; simpl.
  - set_solver.
  - destruct (decide (x ∈ seen)) as [Hx|Hx].
    + rewrite IH. set_solver.
    + rewrite elem_of_cons, IH, elem_of_cons, elem_of_app, list_elem_of_singleton.
      destruct (decide (n = x)); naive_solver.
Qed.

Lemma appended_NoDup seen names : NoDup (appended seen names).
Proof.
  revert seen. induction names as [|x names IH]; intros seen; simpl.
  - constructor.
  - destruct (decide (x ∈ seen)); [apply IH|].
    constructor; [|apply IH].
    rewrite appended_elem. set_solver.
Qed.

Lemma appended_sublist seen names : appended seen names `sublist_of` names.
Proof.
  revert seen. induction names as [|x names IH]; intros seen; simpl.
  - constructor.
  - destruct (decide (x ∈ seen)).
    + by apply sublist_cons.
    + by apply sublist_skip.
Qed.

(** A name that comes earlier among the appended ones occurs in [names]
    before every occurrence of a later one. *)
Lemma appended_order seen names i j a b :
  appended seen names !! i = Some a →
  appended seen names !! j = Some b →
  i < j →
  ∃ k, names !! k = Some a ∧ ∀ k', k' ≤ k → names !! k' ≠ Some b.
Proof.
  revert seen i j. induction names as [|x names IH]; intros seen i j; simpl.
  - by rewrite lookup_nil.
  - destruct (decide (x ∈ seen)) as [Hx|Hx].
    + intros Ha Hb Hij.
      destruct (IH _ _ _ Ha Hb Hij) as (k & Hk & Hlt).
      exists (S k). split; [done|].
      intros [|k'] Hle; simpl.
      * intros [= ->].
        apply list_elem_of_lookup_2, appended_elem in Hb. tauto.
      * apply Hlt. lia.
    + intros Ha Hb Hij. destruct j as [|j]; [lia|]. simpl in Hb.
      assert (b ≠ x) as Hbx.
      { apply list_elem_of_lookup_2, appended_elem in Hb. set_solver. }
      destruct i as [|i]; simpl in Ha.
      * injection Ha as ->. exists 0. split; [done|].
        intros k' Hle. assert (k' = 0) as -> by lia. simpl. congruence.
      * destruct (IH _ _ _ Ha Hb ltac:(lia)) as (k & Hk & Hlt).
        exists (S k). split; [done|].
        intros [|k'] Hle; simpl; [congruence|]. apply Hlt. lia.
Qed.

End ZeroFill.

(** The names of a list of score records:
    [[s['service_name'] for s in services_scores]]. *)
Local Abbreviation names_of scores := (Details.service_name <$> scores).

(** C1, as amended. When the names list has no duplicates and the scored
    names are distinct and all taken from it, the zero-filled list has as
    many records as there are names, carries every name exactly once, and
    gives score 0.0 to every name that had no score. *)
Theorem zero_fill_complete (names : list str) (scores : list ServiceScore) :
  NoDup names →
  NoDup (names_of scores) →
  (∀ n, n ∈ names_of scores → n ∈ names) →
  length (zero_fill names scores) = length names
  ∧ NoDup (names_of (zero_fill names scores))
  ∧ names_of (zero_fill names scores) ≡ₚ names
  ∧ ∀ n, n ∈ names → n ∉ names_of scores →
         zero_record n ∈ zero_fill names scores.
Proof.
  intros Hnames Hscores Hsub.
  rewrite zero_fill_appended.
  assert (NoDup (names_of (scores
            ++ (zero_record <$> appended (names_of scores) names)))) as Hnd.
  { rewrite fmap_app, <- list_fmap_compose.
    rewrite (list_fmap_ext _ id (appended _ _)), list_fmap_id by done.
    apply NoDup_app. split_and!; [done| |apply appended_NoDup].
    intros n Hn Hn'. apply appended_elem in Hn'. tauto. }
  assert (names_of (scores
            ++ (zero_record <$> appended (names_of scores) names)) ≡ₚ names)
    as Hperm.
  { apply NoDup_Permutation; [done..|].
    intros n. rewrite fmap_app, <- list_fmap_compose.
    rewrite (list_fmap_ext _ id (appended _ _)), list_fmap_id by done.
    rewrite elem_of_app, appended_elem.
    destruct (decide (n ∈ names_of scores)); naive_solver. }
  split_and!; [|done..|].
  - rewrite <- (length_fmap Details.service_name). by rewrite Hperm.
  - intros n Hn Hn'. apply elem_of_app. right.
    apply list_elem_of_fmap_2, appended_elem. done.
Qed.

(** The amended C1 at names [A; B; C] with scores for [A] and [B]. *)
Lemma zero_fill_complete_witness :
  let names := [of_ascii "A"; of_ascii "B"; of_ascii "C"] in
  let scores := [mkScore (of_ascii "A") 4%float; mkScore (of_ascii "B") 2%float] in
  length (zero_fill names scores) = length names
  ∧ NoDup (names_of (zero_fill names scores))
  ∧ names_of (zero_fill names scores) ≡ₚ names
  ∧ ∀ n, n ∈ names → n ∉ names_of scores →
         zero_record n ∈ zero_fill names scores.
Proof.
  apply zero_fill_complete.
  - vm_compute. repeat constructor; set_solver.
  - vm_compute. repeat constructor; set_solver.
  - vm_compute. set_solver.
Defined.

(** C1 as stated fails: a name listed twice gets one zero record, so the
    output is shorter than the names list. *)
Lemma zero_fill_duplicate_name :
  let names := [of_ascii "A"; of_ascii "A"] in
  let scores : list ServiceScore := [] in
  (∀ n, n ∈ names_of scores → n ∈ names)
  ∧ zero_fill names scores = [zero_record (of_ascii "A")]
  ∧ length (zero_fill names scores) ≠ length names.
Proof.
  split_and!.
  - intros n Hn. by apply elem_of_nil in Hn.
  - reflexivity.
  - vm_compute. lia.
Qed.

(** C2. The zero-filled list is the list of scored records as it was,
    followed by one record of score 0.0 for each name that had no score;
    those names come without repetition and in the order of their first
    occurrence in the names list. *)
Theorem zero_fill_order (names : list str) (scores : list ServiceScore) :
  ∃ missing : list str,
    zero_fill names scores = scores ++ (zero_record <$> missing)
    ∧ NoDup missing
    ∧ (∀ n, n ∈ missing ↔ n ∈ names ∧ n ∉ names_of scores)
    ∧ missing `sublist_of` names
    ∧ ∀ i j a b, missing !! i = Some a → missing !! j = Some b → i < j →
        ∃ k, names !! k = Some a ∧ ∀ k', k' ≤ k → names !! k' ≠ Some b.
Proof.
  exists (appended (names_of scores) names). split_and!.
  - apply zero_fill_appended.
  - apply appended_NoDup.
  - intros n. apply appended_elem.
  - apply appended_sublist.
  - intros i j a b. apply appended_order.
Qed.

(** ** Name ingestion (scrape.py, lines 45-47) *)

(** C3, as amended. On a name that contains "（" the result is the text
    before the first "（" with the white space around it removed; a name
    without "（" is returned as it is, white space included. Applying the
    transformation twice gives what applying it once gives. *)
Theorem strip_parenthetical_spec (s : str) :
  (fullwidth_lparen ∈ s →
     ∃ before rest lead trail,
       s = before ++ (fullwidth_lparen :: rest)
       ∧ (fullwidth_lparen ∉ before)
       ∧ before = lead ++ strip_parenthetical s ++ trail
       ∧ Forall (λ c, isspace c = true) lead
       ∧ Forall (λ c, isspace c = true) trail
       ∧ (∀ c, head (strip_parenthetical s) = Some c → isspace c = false)
       ∧ (∀ c, last (strip_parenthetical s) = Some c → isspace c = false))
  ∧ (fullwidth_lparen ∉ s → strip_parenthetical s = s)
  ∧ strip_parenthetical (strip_parenthetical s) = strip_parenthetical s.
Proof.
  destruct (contains_char fullwidth_lparen s) eqn:Hc.
  - assert (strip_parenthetical s = strip (split_head fullwidth_lparen s))
      as Hsp by (unfold strip_parenthetical; by rewrite Hc).
    apply contains_char_elem in Hc.
    destruct (split_head_cut _ _ Hc) as (rest & Hs & Hnot).
    rewrite Hsp. split_and!.
    + intros _.
      destruct (strip_cut (split_head fullwidth_lparen s))
        as (lead & trail & Hb & Hlead & Htrail & Hhead & Hlast).
      exists (split_head fullwidth_lparen s), rest, lead, trail. done.
    + done.
    + unfold strip_parenthetical.
      destruct (contains_char _ (strip _)) eqn:Hc'; [|done].
      apply contains_char_elem, strip_elem in Hc'. done.
  - assert (strip_parenthetical s = s)
      as Hsp by (unfold strip_parenthetical; by rewrite Hc).
    assert (fullwidth_lparen ∉ s) as Hnot.
    { rewrite <- contains_char_elem. rewrite Hc. done. }
    rewrite !Hsp. done.
Qed.

(** The amended C3 at the name "Domo （BI）". *)
Lemma strip_parenthetical_spec_witness :
  strip_parenthetical (of_ascii "Domo " ++ [fullwidth_lparen] ++ of_ascii "BI")
  = of_ascii "Domo"
  ∧ strip_parenthetical (of_ascii "Domo") = of_ascii "Domo".
Proof.
  pose proof (strip_parenthetical_spec (of_ascii "Domo")) as (_ & Hid & _).
  split; [reflexivity|].
  apply Hid. vm_compute. set_solver.
Defined.

(** C3 as stated fails: a name without "（" keeps the white space around
    it, where trimming the text before the first "（" would remove it. *)
Lemma strip_parenthetical_untrimmed :
  let s := of_ascii " A" in
  strip_parenthetical s = s
  ∧ head (strip_parenthetical s) = Some 32%N
  ∧ isspace 32 = true
  ∧ strip (split_head fullwidth_lparen s) = of_ascii "A"
  ∧ strip_parenthetical s ≠ strip (split_head fullwidth_lparen s).
Proof. split_and!; try reflexivity. vm_compute. discriminate. Qed.

(** ** Recall against the search index (recall_services.py, lines 66-78) *)

Section Substring.

Implicit Types (p s needle hay : str).

Lemma is_prefix_spec p s : is_prefix p s = true ↔ ∃ post, s = p ++ post.
Proof.
  revert s. induction p as [|a p IH]; intros [|b s]; simpl.
  - split; [by exists []|done].
  - split; [by eexists|done].
  - split; [done|]. by intros (post & ?).
  - rewrite andb_true_iff, N.eqb_eq, IH. split.
    + intros (-> & post & ->). by exists post.
    + intros (post & [= -> ->]). eauto.
Qed.

Lemma is_substring_spec needle hay :
  is_substring needle hay = true ↔ ∃ pre post, hay = pre ++ needle ++ post.
Proof.
  induction hay as [|b hay IH].
  - simpl. rewrite orb_false_r, is_prefix_spec. split.
    + intros (post & ->). by exists [], post.
    + intros ([|] & post & Heq); [by exists post|done].
  - cbn [is_substring]. rewrite orb_true_iff, is_prefix_spec, IH. split.
    + intros [(post & ->)|(pre & post & ->)].
      * by exists [], post.
      * by exists (b :: pre), post.
    + intros ([|c pre] & post & Heq).
      * left. by exists post.
      * right. injection Heq as -> ->. by exists pre, post.
Qed.

End Substring.

Section CheckSearchFacts.

Variable lower : str → str.

(** The loop builds the list its body maps over the names. *)
Lemma check_loop_fmap search_results services_list (acc : list Service) :
  foldl (λ service_know_search service,
           let know := existsb (mentions lower service) search_results in
           service_know_search ++ [mkService service know])
        acc services_list
  = acc ++ ((λ service, mkService service
                          (existsb (mentions lower service) search_results))
              <$> services_list).
Proof.
  revert acc. induction services_list as [|n names IH]; intros acc; simpl.
  - by rewrite app_nil_r.
  - rewrite IH, <- app_assoc. done.
Qed.

Lemma check_services_in_search_fmap services_list search_results :
  check_services_in_search lower services_list search_results
  = (λ service, mkService service
                  (existsb (mentions lower service) search_results))
      <$> services_list.
Proof. apply check_loop_fmap. Qed.

Lemma mentioned_spec service search_results :
  existsb (mentions lower service) search_results = true
  ↔ ∃ result, result ∈ search_results
      ∧ ((∃ pre post, lower (title result) = pre ++ lower service ++ post)
         ∨ (∃ pre post, lower (snippet result) = pre ++ lower service ++ post)).
Proof.
  rewrite existsb_exists. unfold mentions.
  split; intros (result & Hin & H); exists result.
  - apply list_elem_of_In in Hin. split; [done|].
    by rewrite orb_true_iff, !is_substring_spec in H.
  - apply list_elem_of_In in Hin. split; [done|].
    by rewrite orb_true_iff, !is_substring_spec.
Qed.

End CheckSearchFacts.

(** C4. For a name at any position of the input, the record at that
    position is marked known exactly when the lower-cased name is a
    substring of the lower-cased title or of the lower-cased snippet of a
    search result; the function is a function of its two arguments alone.
    With a [lower] that maps A-Z to a-z on ASCII text, "tableau" is known
    from a result titled "Tableau Software". *)
Theorem check_services_in_search_known (lower : str → str) :
  (∀ services_list search_results i service,
     services_list !! i = Some service →
     ∃ know,
       check_services_in_search lower services_list search_results !! i
       = Some (mkService service know)
       ∧ (know = true ↔
          ∃ result, result ∈ search_results
            ∧ ((∃ pre post,
                  lower (title result) = pre ++ lower service ++ post)
               ∨ (∃ pre post,
                  lower (snippet result) = pre ++ lower service ++ post))))
  ∧ ((∀ s, Forall (λ c, (c < 128)%N) s → lower s = ascii_lower s) →
     ∀ link snippet,
       check_services_in_search lower [of_ascii "tableau"]
         [mkResult (of_ascii "Tableau Software") link snippet]
       = [mkService (of_ascii "tableau") true]).
Proof.
  split.
  - intros names results i n Hi.
    exists (existsb (mentions lower n) results). split.
    + rewrite check_services_in_search_fmap, list_lookup_fmap, Hi. done.
    + apply mentioned_spec.
  - intros Hlower link snip.
    rewrite check_services_in_search_fmap. simpl. unfold mentions. simpl.
    rewrite !Hlower by (vm_compute; repeat constructor).
    reflexivity.
Qed.

(** C4 with [ascii_lower] for [lower]. *)
Lemma check_services_in_search_known_witness :
  check_services_in_search ascii_lower [of_ascii "tableau"]
    [Sample.tableau]
  = [mkService (of_ascii "tableau") true].
Proof.
  apply (check_services_in_search_known ascii_lower). done.
Defined.

(** C10. The output has one record per input name, in the order of the
    input, and each record carries its name unchanged, whatever the search
    results are. *)
Theorem check_services_in_search_names (lower : str → str)
    (services_list : list str) (search_results : list SearchResult) :
  length (check_services_in_search lower services_list search_results)
  = length services_list
  ∧ Recall.service_name
      <$> check_services_in_search lower services_list search_results
    = services_list
  ∧ ∀ i service, services_list !! i = Some service →
      Recall.service_name
        <$> check_services_in_search lower services_list search_results !! i
      = Some service.
Proof.
  rewrite check_services_in_search_fmap. split_and!.
  - apply length_fmap.
  - rewrite <- list_fmap_compose. apply list_fmap_id.
  - intros i n Hi. by rewrite list_lookup_fmap, Hi.
Qed.

(** ** The post-filter of the model's answer (recall_services.py, lines 57-63) *)

Lemma post_filter_loop (response : list RawService) (acc : list Service) :
  foldl post_filter_step acc response = acc ++ post_filter response.
Proof.
  unfold post_filter. revert acc.
  induction response as [|item response IH]; intros acc; simpl.
  - by rewrite app_nil_r.
  - rewrite (IH (post_filter_step [] item)), (IH (post_filter_step acc item)).
    unfold post_filter_step.
    destruct (raw_service_name item) as [[|c name]|], (raw_know item) as [b|];
      simpl; try done.
    by rewrite <- app_assoc.
Qed.

Lemma post_filter_cons (item : RawService) (response : list RawService) :
  post_filter (item :: response)
  = post_filter_step [] item ++ post_filter response.
Proof. unfold post_filter at 1. simpl. apply post_filter_loop. Qed.

(** C7. A record is in the output exactly when a raw record has that
    name, not empty, and that boolean, not null; the raw records with an
    empty or null name or a null boolean add nothing, in particular no
    record marked false; the records kept stay in the order of the answer. *)
Theorem post_filter_spec :
  (∀ response s,
     s ∈ post_filter response ↔
     ∃ item name b, item ∈ response
       ∧ raw_service_name item = Some name ∧ name ≠ []
       ∧ raw_know item = Some b
       ∧ s = mkService name b)
  ∧ (∀ item name b,
       raw_service_name item = Some name → name ≠ [] →
       raw_know item = Some b →
       post_filter [item] = [mkService name b])
  ∧ (∀ item,
       raw_service_name item = None ∨ raw_service_name item = Some []
       ∨ raw_know item = None →
       post_filter [item] = [])
  ∧ (∀ response1 response2,
       post_filter (response1 ++ response2)
       = post_filter response1 ++ post_filter response2).
Proof.
  split_and!.
  - intros response s. induction response as [|item response IH].
    + split; [by intros ?%elem_of_nil|].
      by intros (? & ? & ? & ?%elem_of_nil & _).
    + rewrite post_filter_cons, elem_of_app, IH. unfold post_filter_step.
      split.
      * intros [Hs|(it & name & b & Hin & H)].
        -- destruct (raw_service_name item) as [[|c name]|] eqn:Hn,
             (raw_know item) as [b|] eqn:Hb; simpl in Hs;
             try by apply elem_of_nil in Hs.
           apply list_elem_of_singleton in Hs as ->.
           exists item, (c :: name), b. split_and!; try done. by left.
        -- exists it, name, b. split; [by right|done].
      * intros (it & name & b & Hin & Hn & Hne & Hb & ->).
        apply elem_of_cons in Hin as [->|Hin].
        -- left. rewrite Hn, Hb. destruct name; [done|]. simpl. by left.
        -- right. by exists it, name, b.
  - intros item name b Hn Hne Hb. rewrite post_filter_cons.
    unfold post_filter_step. rewrite Hn, Hb. by destruct name.
  - intros item H. rewrite post_filter_cons. unfold post_filter_step.
    destruct H as [->| [->| ->]]; [done|by destruct (raw_know item)|].
    by destruct (raw_service_name item).
  - intros l1 l2. unfold post_filter at 1.
    by rewrite foldl_app, post_filter_loop.
Qed.

(** The model's answer [{A: true}, {"": true}, {B: null}, {null: false},
    {C: false}] keeps the records of A and C. *)
Lemma post_filter_spec_witness :
  post_filter [mkRaw (Some (of_ascii "A")) (Some true)]
  = [mkService (of_ascii "A") true]
  ∧ post_filter [mkRaw (Some (of_ascii "B")) None] = []
  ∧ post_filter [mkRaw (Some (of_ascii "A")) (Some true);
                 mkRaw (Some []) (Some true);
                 mkRaw (Some (of_ascii "B")) None;
                 mkRaw None (Some false);
                 mkRaw (Some (of_ascii "C")) (Some false)]
    = [mkService (of_ascii "A") true; mkService (of_ascii "C") false].
Proof.
  destruct post_filter_spec as (_ & Hkeep & Hdrop & _).
  split_and!.
  - by apply Hkeep.
  - apply Hdrop. by right; right.
  - reflexivity.
Defined.

(** ** Set overlap (recall_services.py, lines 103-109) *)

(** C5. The three regions of the diagram are pairwise disjoint, together
    they are the union of the two sets, and the three counts reported add
    up to the size of that union. *)
Theorem venn_labels_partition (set_gemini set_search : gset str) :
  (set_gemini ∖ set_search) ## (set_search ∖ set_gemini)
  ∧ (set_gemini ∖ set_search) ## (set_gemini ∩ set_search)
  ∧ (set_search ∖ set_gemini) ## (set_gemini ∩ set_search)
  ∧ (set_gemini ∖ set_search) ∪ (set_search ∖ set_gemini)
      ∪ (set_gemini ∩ set_search) = set_gemini ∪ set_search
  ∧ label_10 (venn_labels set_gemini set_search)
    + label_01 (venn_labels set_gemini set_search)
    + label_11 (venn_labels set_gemini set_search)
    = size (set_gemini ∪ set_search).
Proof.
  assert ((set_gemini ∖ set_search) ∪ (set_search ∖ set_gemini)
            ∪ (set_gemini ∩ set_search) = set_gemini ∪ set_search) as Hunion.
  { apply set_eq. intros x. set_unfold.
    destruct (decide (x ∈ set_gemini)), (decide (x ∈ set_search)); tauto. }
  split_and!; [set_solver..|done|].
  simpl. rewrite <- Hunion.
  rewrite (size_union (_ ∪ _) (set_gemini ∩ set_search)) by set_solver.
  rewrite (size_union (set_gemini ∖ set_search)) by set_solver.
  done.
Qed.

(** The sets compared are the names of the records marked known. *)
Lemma known_set_elem (records : list Service) (n : str) :
  n ∈ known_set records ↔ mkService n true ∈ records.
Proof.
  unfold known_set. rewrite elem_of_list_to_set, list_elem_of_fmap. split.
  - intros ([n' k] & -> & [Hk Hin]%list_elem_of_filter). simpl in *. by subst.
  - intros Hin. exists (mkService n true). split; [done|].
    by apply list_elem_of_filter.
Qed.

(** ** The catalog provider (scrape.py) *)

Section ScrapeFacts.

Variable site : Catalog.

Lemma process_cards_good (good : list str) (service_list : list str) :
  process_cards (Some <$> good) service_list
  = (service_list ++ (strip_parenthetical <$> good), false).
Proof.
  revert service_list. induction good as [|n good IH]; intros acc; simpl.
  - by rewrite app_nil_r.
  - rewrite IH, <- app_assoc. done.
Qed.

Lemma process_cards_bad (good : list str) (rest : list Card)
    (service_list : list str) :
  process_cards ((Some <$> good) ++ None :: rest) service_list
  = (service_list ++ (strip_parenthetical <$> good), true).
Proof.
  revert service_list. induction good as [|n good IH]; intros acc; simpl.
  - by rewrite app_nil_r.
  - rewrite IH, <- app_assoc. done.
Qed.

(** The page loop only adds to the trace, and only its own events. *)
Lemma scrape_pages_trace pages service_list tr :
  ∃ events,
    snd (scrape_pages site pages service_list tr) = tr ++ events
    ∧ Forall (λ e, is_page_event e = true) events.
Proof.
  revert service_list tr.
  induction pages as [|i pages IH]; intros acc tr; simpl.
  - exists []. by rewrite app_nil_r.
  - destruct (site i) as [|cards].
    + exists [HttpGetPage i; Print (MsgPageError i)].
      rewrite <- app_assoc. split; [done|]. by repeat constructor.
    + destruct (process_cards cards acc) as [acc' [|]].
      * exists [HttpGetPage i; Print (MsgPageError i)].
        rewrite <- app_assoc. split; [done|]. by repeat constructor.
      * destruct (IH acc' (tr ++ [HttpGetPage i])) as (events & -> & Hev).
        exists (HttpGetPage i :: events).
        rewrite <- app_assoc. split; [done|]. by constructor.
Qed.

(** Pages that parse in full are passed one after the other. *)
Lemma scrape_pages_good (good : Z → list str) pages rest service_list tr :
  (∀ i, i ∈ pages → site i = PageCards (Some <$> good i)) →
  scrape_pages site (pages ++ rest) service_list tr
  = scrape_pages site rest
      (service_list ++ concat ((λ i, strip_parenthetical <$> good i) <$> pages))
      (tr ++ (HttpGetPage <$> pages)).
Proof.
  revert service_list tr.
  induction pages as [|i pages IH]; intros acc tr Hgood; simpl.
  - by rewrite !app_nil_r.
  - rewrite (Hgood i) by (by left). rewrite process_cards_good.
    rewrite IH by (intros j Hj; apply Hgood; by right).
    by rewrite <- !app_assoc.
Qed.

(** A page that fails ends the loop with what was accumulated. *)
Lemma scrape_pages_fail k rest (partial : list str) service_list tr :
  (site k = PageError ∧ partial = []
   ∨ ∃ cards, site k = PageCards ((Some <$> partial) ++ None :: cards)) →
  scrape_pages site (k :: rest) service_list tr
  = (service_list ++ (strip_parenthetical <$> partial),
     tr ++ [HttpGetPage k; Print (MsgPageError k)]).
Proof.
  intros [[Hk ->]|(cards & Hk)]; simpl; rewrite Hk.
  - by rewrite app_nil_r, <- app_assoc.
  - by rewrite process_cards_bad, <- app_assoc.
Qed.

End ScrapeFacts.

(** C9. In a forced fetch, when page [k] is the first one whose request
    or parsing raises, the pages 1 to [k] are requested once each and no
    other; the call returns, without raising, the names of the pages before
    [k] followed by the names read from page [k] before the error, and
    that list is what is written to the cache file. *)
Theorem scrape_error_aborts (site : Catalog) (good : Z → list str)
    (partial : list str) (k : Z) (fuel : nat) (st : Scrape.State) :
  (1 ≤ k ≤ 14)%Z →
  (∀ i, (1 ≤ i < k)%Z → site i = PageCards (Some <$> good i)) →
  (site k = PageError ∧ partial = []
   ∨ ∃ cards, site k = PageCards ((Some <$> partial) ++ None :: cards)) →
  let names :=
    concat ((λ i, strip_parenthetical <$> good i) <$> seqZ 1 (k - 1))
    ++ (strip_parenthetical <$> partial) in
  get_bi_service_list (S fuel) site true st
  = Some (Returned names,
          Scrape.mkState (Some (Parsed names))
            (Scrape.trace st ++ [Print MsgForcedScrape]
             ++ (HttpGetPage <$> seqZ 1 k)
             ++ [Print (MsgPageError k); OpenWrite bi_services_json;
                 Print (MsgServiceCount (length names))])).
Proof.
  intros Hk Hgood Hfail names.
  assert (range 1 15 = seqZ 1 (k - 1) ++ k :: seqZ (k + 1) (14 - k)) as Hrange.
  { unfold range. replace (15 - 1)%Z with ((k - 1) + (1 + (14 - k)))%Z by lia.
    rewrite seqZ_app by lia. f_equal.
    rewrite seqZ_cons by lia. f_equal; [lia|]. f_equal; lia. }
  cbn [get_bi_service_list]. rewrite Hrange.
  rewrite (scrape_pages_good site good).
  2:{ intros i Hi. apply Hgood. apply elem_of_seqZ in Hi. lia. }
  rewrite (scrape_pages_fail site k _ partial) by done.
  cbn [app]. fold names. unfold Scrape.log. cbn [Scrape.trace Scrape.bi_services].
  assert (seqZ 1 k = seqZ 1 (k - 1) ++ [k]) as ->.
  { replace k with ((k - 1) + 1)%Z at 1 by lia.
    rewrite seqZ_app by lia. f_equal.
    replace (1 + (k - 1))%Z with k by lia. done. }
  rewrite fmap_app. do 3 f_equal.
  rewrite <- !app_assoc. done.
Qed.

(** C9 on the sample catalog, whose second page fails at its second card. *)
Lemma scrape_error_aborts_witness :
  get_bi_service_list 1 Sample.site true Sample.no_list_cache
  = Some (Returned [of_ascii "Tableau"; of_ascii "Domo"; of_ascii "Looker"],
          Scrape.mkState
            (Some (Parsed [of_ascii "Tableau"; of_ascii "Domo"; of_ascii "Looker"]))
            [Print MsgForcedScrape; HttpGetPage 1; HttpGetPage 2;
             Print (MsgPageError 2); OpenWrite bi_services_json;
             Print (MsgServiceCount 3)]).
Proof.
  refine (scrape_error_aborts Sample.site Sample.good_cards
            [of_ascii "Looker"] 2 0 Sample.no_list_cache _ _ _).
  - lia.
  - intros i Hi. assert (i = 1%Z) as -> by lia. reflexivity.
  - right. exists [Some (of_ascii "Qlik")]. reflexivity.
Defined.

(** ** The search provider (search.py) *)

(** The request loop only adds to the trace, and only its own events. *)
Lemma search_pages_trace (w : World) query num_results offsets results tr :
  ∃ events,
    snd (search_pages w query num_results offsets results tr) = tr ++ events
    ∧ Forall (λ e, is_request_event e = true) events.
Proof.
  revert results tr.
  induction offsets as [|i offsets IH]; intros results tr; cbn [search_pages].
  - exists []. by rewrite app_nil_r.
  - cbv zeta. cbn [start num].
    destruct (api w _) as [e| |items].
    + eexists [_; _]. rewrite <- app_assoc. split; [done|]. by repeat constructor.
    + eexists [_; _]. rewrite <- app_assoc. split; [done|]. by repeat constructor.
    + destruct (_ <=? _)%Z.
      * eexists [_]. split; [done|]. by repeat constructor.
      * destruct (IH (results ++ items)
                     (tr ++ [HttpGetSearch (i + 1) (Z.min 10 (num_results - i))]))
          as (events & -> & Hev).
        eexists (_ :: events). rewrite <- app_assoc. split; [done|].
        by constructor.
Qed.

(** C8. A requested count outside [1,100] makes the call return the empty
    list at once, whatever [forced] is: nothing is raised, the cache file
    is left as it was, and the only effect is the printed diagnostic, so no
    request is sent and no file is opened. *)
Theorem bad_num_results_rejected (w : World) (query : str) (num_results : Z)
    (forced : bool) (fuel : nat) (st : Search.State) :
  (num_results < 1 ∨ 100 < num_results)%Z →
  get_google_search_results (S fuel) w query num_results forced st
  = Some (Returned [],
          Search.mkState (search_results st)
                         (Search.trace st ++ [Print MsgBadNumResults]))
  ∧ filter (λ e, is_http e = true) [Print MsgBadNumResults] = []
  ∧ filter (λ e, is_file_access e = true) [Print MsgBadNumResults] = [].
Proof.
  intros Hbad. cbn [get_google_search_results].
  assert ((1 <=? num_results)%Z && (num_results <=? 100)%Z = false) as ->.
  { apply andb_false_iff. rewrite !Z.leb_gt. lia. }
  done.
Qed.

(** C8 at the counts 0 and 101. *)
Lemma bad_num_results_rejected_witness :
  get_google_search_results 1 Sample.world (of_ascii "BI") 0 true
    Sample.no_search_cache
  = Some (Returned [], Search.mkState None [Print MsgBadNumResults])
  ∧ get_google_search_results 1 Sample.world (of_ascii "BI") 101 false
      Sample.no_search_cache
    = Some (Returned [], Search.mkState None [Print MsgBadNumResults]).
Proof.
  split.
  - apply (bad_num_results_rejected Sample.world (of_ascii "BI") 0 true 0
             Sample.no_search_cache). lia.
  - apply (bad_num_results_rejected Sample.world (of_ascii "BI") 101 false 0
             Sample.no_search_cache). lia.
Defined.

(** ** The fallback on a missing cache file *)

(** C6, as amended. With no cache file and [forced] false, each provider
    (the search provider when the requested count is within [1,100])
    notes the missing file once, runs the forced path once, writes what it
    fetched to the cache file and returns: a call stack two deep is enough
    whatever the network answers, and one deep is not. *)
Theorem cache_miss_falls_back_once (site : Catalog) (w : World) (query : str)
    (num_results : Z) (fuel : nat)
    (tr_list tr_search : list Event) :
  2 ≤ fuel →
  (1 ≤ num_results ≤ 100)%Z →
  (∃ names events,
     get_bi_service_list fuel site false (Scrape.mkState None tr_list)
     = Some (Returned names,
             Scrape.mkState (Some (Parsed names))
               (tr_list
                ++ [Print MsgScrapeFromCache; OpenRead bi_services_json;
                    Print MsgScrapeCacheMissing; Print MsgForcedScrape]
                ++ events
                ++ [OpenWrite bi_services_json;
                    Print (MsgServiceCount (length names))]))
     ∧ Forall (λ e, is_page_event e = true) events
     ∧ get_bi_service_list 1 site false (Scrape.mkState None tr_list) = None)
  ∧ (∃ results events,
       get_google_search_results fuel w query num_results false
         (Search.mkState None tr_search)
       = Some (Returned (truncate num_results results),
               Search.mkState (Some (Parsed results))
                 (tr_search
                  ++ [LoadDotenv; Print MsgSearchFromCache;
                      OpenRead search_results_json;
                      Print MsgSearchCacheMissing;
                      LoadDotenv; Print MsgForcedSearch]
                  ++ events
                  ++ [OpenWrite search_results_json]))
       ∧ Forall (λ e, is_request_event e = true) events
       ∧ get_google_search_results 1 w query num_results false
           (Search.mkState None tr_search) = None).
Proof.
  intros Hfuel Hnum.
  destruct fuel as [|[|fuel]]; [lia..|]. split.
  - cbn [get_bi_service_list]. unfold Scrape.log.
    cbn [Scrape.trace Scrape.bi_services].
    destruct (scrape_pages_trace site (range 1 15) []
                ((((tr_list ++ [Print MsgScrapeFromCache])
                   ++ [OpenRead bi_services_json])
                  ++ [Print MsgScrapeCacheMissing])
                 ++ [Print MsgForcedScrape])) as (events & Htr & Hev).
    destruct (scrape_pages _ _ _ _) as [names tr]. simpl in Htr. subst tr.
    exists names, events. split_and!; [|done..].
    do 3 f_equal. rewrite <- !app_assoc. done.
  - assert ((1 <=? num_results)%Z && (num_results <=? 100)%Z = true) as Hok.
    { apply andb_true_iff. rewrite !Z.leb_le. lia. }
    cbn [get_google_search_results]. rewrite Hok. cbn [negb].
    unfold Search.log. cbn [Search.trace Search.search_results].
    destruct (search_pages_trace w query num_results
                (range_step 0 num_results 10) []
                ((((((tr_search ++ [LoadDotenv]) ++ [Print MsgSearchFromCache])
                     ++ [OpenRead search_results_json])
                    ++ [Print MsgSearchCacheMissing])
                   ++ [LoadDotenv]) ++ [Print MsgForcedSearch]))
      as (events & Htr & Hev).
    destruct (search_pages _ _ _ _ _ _) as [results tr]. simpl in Htr. subst tr.
    exists results, events. split_and!; [|done..].
    do 3 f_equal. rewrite <- !app_assoc. done.
Qed.

(** The amended C6 on the sample catalog and search service, for a call
    stack two deep and twenty results requested. *)
Lemma cache_miss_falls_back_once_witness :
  (∃ names events,
     get_bi_service_list 2 Sample.site false (Scrape.mkState None [])
     = Some (Returned names,
             Scrape.mkState (Some (Parsed names))
               ([]
                ++ [Print MsgScrapeFromCache; OpenRead bi_services_json;
                    Print MsgScrapeCacheMissing; Print MsgForcedScrape]
                ++ events
                ++ [OpenWrite bi_services_json;
                    Print (MsgServiceCount (length names))]))
     ∧ Forall (λ e, is_page_event e = true) events
     ∧ get_bi_service_list 1 Sample.site false (Scrape.mkState None []) = None)
  ∧ (∃ results events,
       get_google_search_results 2 Sample.world (of_ascii "BI") 20 false
         (Search.mkState None [])
       = Some (Returned (truncate 20 results),
               Search.mkState (Some (Parsed results))
                 ([]
                  ++ [LoadDotenv; Print MsgSearchFromCache;
                      OpenRead search_results_json;
                      Print MsgSearchCacheMissing;
                      LoadDotenv; Print MsgForcedSearch]
                  ++ events
                  ++ [OpenWrite search_results_json]))
       ∧ Forall (λ e, is_request_event e = true) events
       ∧ get_google_search_results 1 Sample.world (of_ascii "BI") 20 false
           (Search.mkState None []) = None).
Proof.
  apply (cache_miss_falls_back_once Sample.site Sample.world (of_ascii "BI")
           20 2 [] []); lia.
Defined.

(** C6 as stated fails for the search provider: with a requested count of
    0 the call returns before it looks for the cache file, so there is no
    fallback, nothing is fetched and nothing is written. *)
Lemma search_cache_miss_without_fallback :
  get_google_search_results 2 Sample.world (of_ascii "BI") 0 false
    Sample.no_search_cache
  = Some (Returned [], Search.mkState None [Print MsgBadNumResults]).
Proof. reflexivity. Qed.

(** ** The model on small inputs *)

(** [range(1, 15)] stops at page 14. *)
Example range_1_15 :
  length (range 1 15) = 14
  ∧ head (range 1 15) = Some 1%Z ∧ last (range 1 15) = Some 14%Z.
Proof. by vm_compute. Qed.

Example range_step_25 : range_step 0 25 10 = [0; 10; 20]%Z.
Proof. reflexivity. Qed.

Example strip_spaces : strip (of_ascii "  Power BI ") = of_ascii "Power BI".
Proof. reflexivity. Qed.

Example substring_found :
  is_substring (of_ascii "bleau") (of_ascii "tableau software") = true
  ∧ is_substring (of_ascii "looker") (of_ascii "tableau software") = false.
Proof. split; reflexivity. Qed.

(** The end-to-end scenario: A and B are known and scored 4 and 2, C is
    unknown and is given 0. *)
Example pipeline_scenario :
  let names := [of_ascii "A"; of_ascii "B"; of_ascii "C"] in
  let recalled := [mkService (of_ascii "A") true; mkService (of_ascii "B") true;
                   mkService (of_ascii "C") false] in
  let scores := [mkScore (of_ascii "A") 4%float; mkScore (of_ascii "B") 2%float] in
  remove_unknown_services recalled = [of_ascii "A"; of_ascii "B"]
  ∧ zero_fill names scores
    = [mkScore (of_ascii "A") 4%float; mkScore (of_ascii "B") 2%float;
       mkScore (of_ascii "C") 0%float].
Proof. split; reflexivity. Qed.

(** After the fallback the list is served from the cache file, without a
    request. *)
Example second_call_reads_cache :
  ∃ names st,
    get_bi_service_list 2 Sample.site false Sample.no_list_cache
    = Some (Returned names, st)
    ∧ get_bi_service_list 1 Sample.site false (Scrape.mkState (bi_services st) [])
      = Some (Returned names,
              Scrape.mkState (bi_services st)
                [Print MsgScrapeFromCache; OpenRead bi_services_json;
                 Print (MsgServiceCount (length names))]).
Proof. eexists _, _. split; reflexivity. Qed.

(** * Further properties of the code *)

(** ** Name ingestion *)

Lemma isspace_not_lparen : isspace fullwidth_lparen = false.
Proof. reflexivity. Qed.

Lemma split_head_app sep (pre rest : str) :
  sep ∉ pre → split_head sep (pre ++ sep :: rest) = pre.
Proof.
  induction pre as [|c pre IH]; simpl; intros Hnot.
  - by rewrite N.eqb_refl.
  - apply not_elem_of_cons in Hnot as [Hne Hnot].
    destruct (N.eqb_spec c sep) as [->|_]; [done|]. by rewrite IH.
Qed.

Lemma lstrip_spaces (s : str) :
  Forall (λ c, isspace c = true) s → lstrip s = [].
Proof. induction 1 as [|c s Hc _ IH]; simpl; [done|]. by rewrite Hc. Qed.

Lemma strip_parenthetical_no_lparen (s : str) :
  fullwidth_lparen ∉ strip_parenthetical s.
Proof.
  unfold strip_parenthetical.
  destruct (contains_char fullwidth_lparen s) eqn:Hc.
  - apply contains_char_elem in Hc.
    destruct (split_head_cut _ _ Hc) as (rest & _ & Hnot).
    intros Hin%strip_elem. done.
  - rewrite <- contains_char_elem. by rewrite Hc.
Qed.

(** X1. The ingested name never contains "（", and it is a contiguous
    piece of the anchor text: ingestion only removes characters, at the
    two ends. *)
Theorem strip_parenthetical_shape (s : str) :
  (fullwidth_lparen ∉ strip_parenthetical s)
  ∧ ∃ lead rest, s = lead ++ strip_parenthetical s ++ rest.
Proof.
  split; [apply strip_parenthetical_no_lparen|].
  unfold strip_parenthetical.
  destruct (contains_char fullwidth_lparen s) eqn:Hc.
  - apply contains_char_elem in Hc.
    destruct (split_head_cut _ _ Hc) as (rest & Hs & _).
    destruct (strip_cut (split_head fullwidth_lparen s))
      as (lead & trail & Hb & _).
    exists lead, (trail ++ fullwidth_lparen :: rest).
    rewrite Hs at 1. rewrite Hb at 1. by rewrite <- !app_assoc.
  - exists [], []. by rewrite app_nil_r.
Qed.

(** X2. An anchor text with nothing but white space before its first
    "（" is ingested as the empty name. *)
Theorem strip_parenthetical_blank (pre rest : str) :
  Forall (λ c, isspace c = true) pre →
  strip_parenthetical (pre ++ fullwidth_lparen :: rest) = [].
Proof.
  intros Hpre.
  assert (fullwidth_lparen ∉ pre) as Hnot.
  { intros Hin. rewrite Forall_forall in Hpre. apply Hpre in Hin.
    by rewrite isspace_not_lparen in Hin. }
  unfold strip_parenthetical.
  assert (contains_char fullwidth_lparen (pre ++ fullwidth_lparen :: rest) = true)
    as ->.
  { apply contains_char_elem, elem_of_app. right. by left. }
  rewrite split_head_app by done.
  unfold strip, rstrip. rewrite (lstrip_spaces pre) by done. reflexivity.
Qed.

(** X2 at the anchor text " （BI）". *)
Lemma strip_parenthetical_blank_witness :
  strip_parenthetical
    (of_ascii " " ++ fullwidth_lparen :: (of_ascii "BI" ++ [65289%N])) = [].
Proof.
  apply (strip_parenthetical_blank (of_ascii " ")).
  repeat constructor.
Defined.

(** ** The catalog provider *)

Section ScrapeMore.

Variable site : Catalog.

Lemma process_cards_clean cards (service_list : list str) :
  Forall (λ n : str, fullwidth_lparen ∉ n) service_list →
  Forall (λ n : str, fullwidth_lparen ∉ n) (process_cards cards service_list).1.
Proof.
  revert service_list.
  induction cards as [|[n|] cards IH]; intros acc Hacc; simpl; [done| |done].
  apply IH, Forall_app. split; [done|].
  constructor; [apply strip_parenthetical_no_lparen|constructor].
Qed.

Lemma scrape_pages_clean pages (service_list : list str) tr :
  Forall (λ n : str, fullwidth_lparen ∉ n) service_list →
  Forall (λ n : str, fullwidth_lparen ∉ n)
         (scrape_pages site pages service_list tr).1.
Proof.
  revert service_list tr.
  induction pages as [|i pages IH]; intros acc tr Hacc; simpl; [done|].
  destruct (site i) as [|cards]; [done|].
  pose proof (process_cards_clean cards acc Hacc) as Hclean.
  destruct (process_cards cards acc) as [acc' [|]]; simpl in *; [done|].
  by apply IH.
Qed.

(** The requests of the page loop go to consecutive pages, the first of
    the pages to visit first. *)
Lemma scrape_pages_requests (len : nat) (a : Z) (service_list : list str) tr :
  ∃ k : Z,
    (0 ≤ k ≤ Z.of_nat len)%Z ∧ (0 < len → (1 ≤ k)%Z)
    ∧ filter (λ e, is_http e = true)
        (scrape_pages site (seqZ a (Z.of_nat len)) service_list tr).2
      = filter (λ e, is_http e = true) tr ++ (HttpGetPage <$> seqZ a k).
Proof.
  revert a service_list tr. induction len as [|len IH]; intros a acc tr.
  - exists 0%Z. simpl. rewrite app_nil_r. split_and!; [lia..|done].
  - rewrite seqZ_cons by lia.
    replace (Z.pred (Z.of_nat (S len))) with (Z.of_nat len) by lia.
    cbn [scrape_pages].
    assert (∀ m, filter (λ e, is_http e = true)
                   ((tr ++ [HttpGetPage a]) ++ [Print m])
                 = filter (λ e, is_http e = true) tr
                   ++ (HttpGetPage <$> seqZ a 1)) as Hstop.
    { intros m. rewrite !filter_app, (seqZ_cons a 1), seqZ_nil by lia.
      rewrite <- app_assoc. f_equal. }
    destruct (site a) as [|cards].
    + exists 1%Z. split_and!; [lia..|apply Hstop].
    + destruct (process_cards cards acc) as [acc' [|]].
      * exists 1%Z. split_and!; [lia..|apply Hstop].
      * destruct (IH (Z.succ a) acc' (tr ++ [HttpGetPage a]))
          as (k & Hk & _ & ->).
        exists (1 + k)%Z. split_and!; [lia..|].
        rewrite filter_app, <- app_assoc. f_equal.
        rewrite (seqZ_cons a (1 + k)) by lia.
        replace (Z.pred (1 + k)) with k by lia. done.
Qed.

End ScrapeMore.

(** X3. A forced fetch always returns, never raises, and replaces the
    cache file by the list it returns, whatever the file held and whatever
    the site answers; no name of that list contains "（". *)
Theorem forced_fetch_clean (site : Catalog) (fuel : nat) (st : Scrape.State) :
  ∃ names tr,
    get_bi_service_list (S fuel) site true st
    = Some (Returned names, Scrape.mkState (Some (Parsed names)) tr)
    ∧ Forall (λ n : str, fullwidth_lparen ∉ n) names.
Proof.
  cbn [get_bi_service_list].
  pose proof (scrape_pages_clean site (range 1 15) []
                (Scrape.trace (Scrape.log (Print MsgForcedScrape) st))
                (Forall_nil_2 _)) as Hclean.
  destruct (scrape_pages _ _ _ _) as [names tr]. simpl in Hclean.
  eexists names, _. split; [reflexivity|done].
Qed.

(** X4. A forced fetch requests the pages 1, 2, ... in that order, each
    once, up to some page between 1 and 14: page 15 is never requested. *)
Theorem forced_fetch_page_order (site : Catalog) (fuel : nat)
    (st : Scrape.State) :
  ∃ (k : Z) outcome st',
    (1 ≤ k ≤ 14)%Z
    ∧ get_bi_service_list (S fuel) site true st = Some (outcome, st')
    ∧ filter (λ e, is_http e = true) (Scrape.trace st')
      = filter (λ e, is_http e = true) (Scrape.trace st)
        ++ (HttpGetPage <$> seqZ 1 k).
Proof.
  cbn [get_bi_service_list].
  destruct (scrape_pages_requests site 14 1 []
              (Scrape.trace (Scrape.log (Print MsgForcedScrape) st)))
    as (k & Hk & Hpos & Hreq).
  change (seqZ 1 (Z.of_nat 14)) with (range 1 15) in Hreq.
  destruct (scrape_pages _ _ _ _) as [names tr]. simpl in Hreq.
  exists k. eexists _, _. split_and!; [lia|lia|reflexivity|].
  unfold Scrape.log. cbn [Scrape.trace].
  rewrite !filter_app, Hreq. unfold Scrape.log. cbn [Scrape.trace].
  rewrite filter_app. simpl. by rewrite !app_nil_r.
Qed.

(** X5. When the 14 pages all parse, a forced fetch returns the names of
    pages 1 to 14 in page order, each page's names in card order, prints no
    page error, and writes that list to the cache file. *)
Theorem forced_fetch_all_pages (site : Catalog) (good : Z → list str)
    (fuel : nat) (st : Scrape.State) :
  (∀ i, (1 ≤ i ≤ 14)%Z → site i = PageCards (Some <$> good i)) →
  let names := concat ((λ i, strip_parenthetical <$> good i) <$> seqZ 1 14) in
  get_bi_service_list (S fuel) site true st
  = Some (Returned names,
          Scrape.mkState (Some (Parsed names))
            (Scrape.trace st ++ [Print MsgForcedScrape]
             ++ (HttpGetPage <$> seqZ 1 14)
             ++ [OpenWrite bi_services_json;
                 Print (MsgServiceCount (length names))])).
Proof.
  intros Hgood names. cbn [get_bi_service_list].
  change (range 1 15) with (seqZ 1 14 ++ []).
  rewrite (scrape_pages_good site good).
  2:{ intros i Hi. apply Hgood. apply elem_of_seqZ in Hi. lia. }
  cbn [scrape_pages app]. fold names.
  unfold Scrape.log. cbn [Scrape.trace Scrape.bi_services].
  do 3 f_equal. rewrite <- !app_assoc. done.
Qed.

(** X5 on a catalog each page of which lists one product. *)
Lemma forced_fetch_all_pages_witness :
  get_bi_service_list 1 Sample2.steady_site true Sample.no_list_cache
  = Some (Returned (replicate 14 (of_ascii "Tableau")),
          Scrape.mkState (Some (Parsed (replicate 14 (of_ascii "Tableau"))))
            ([] ++ [Print MsgForcedScrape]
             ++ (HttpGetPage <$> seqZ 1 14)
             ++ [OpenWrite bi_services_json; Print (MsgServiceCount 14)])).
Proof.
  apply (forced_fetch_all_pages Sample2.steady_site
           (λ _, [of_ascii "Tableau"]) 0 Sample.no_list_cache).
  intros i Hi. reflexivity.
Defined.

(** X6. What a forced fetch returns is what the next call without
    [forced] returns, from the cache file alone: that second call sends no
    request, whatever the site would answer, and leaves the file as it is. *)
Theorem scrape_round_trip (site site' : Catalog) (fuel fuel' : nat)
    (st : Scrape.State) :
  ∃ names st1 st2,
    get_bi_service_list (S fuel) site true st = Some (Returned names, st1)
    ∧ get_bi_service_list (S fuel') site' false st1
      = Some (Returned names, st2)
    ∧ bi_services st2 = bi_services st1
    ∧ filter (λ e, is_http e = true) (Scrape.trace st2)
      = filter (λ e, is_http e = true) (Scrape.trace st1).
Proof.
  cbn [get_bi_service_list].
  destruct (scrape_pages _ _ _ _) as [names tr].
  eexists names, _, _. split; [reflexivity|].
  unfold Scrape.log. cbn [Scrape.trace Scrape.bi_services].
  split_and!; [reflexivity..|].
  cbn [Scrape.trace]. rewrite !filter_app. simpl. by rewrite !app_nil_r.
Qed.

(** X7. A cache file that exists but does not parse is not taken for a
    missing one: the call without [forced] raises the decoding error, sends
    no request and leaves the file as it is. The same holds for the search
    provider when the requested count is valid. *)
Theorem malformed_cache_raises (site : Catalog) (w : World) (query : str)
    (num_results : Z) (fuel : nat) (tr tr' : list Event) :
  (1 ≤ num_results ≤ 100)%Z →
  get_bi_service_list (S fuel) site false (Scrape.mkState (Some Malformed) tr)
  = Some (Raised JSONDecodeError,
          Scrape.mkState (Some Malformed)
            (tr ++ [Print MsgScrapeFromCache; OpenRead bi_services_json]))
  ∧ get_google_search_results (S fuel) w query num_results false
      (Search.mkState (Some Malformed) tr')
    = Some (Raised JSONDecodeError,
            Search.mkState (Some Malformed)
              (tr' ++ [LoadDotenv; Print MsgSearchFromCache;
                       OpenRead search_results_json])).
Proof.
  intros Hnum. split.
  - cbn [get_bi_service_list]. unfold Scrape.log.
    cbn [Scrape.trace Scrape.bi_services]. by rewrite <- !app_assoc.
  - cbn [get_google_search_results].
    assert ((1 <=? num_results)%Z && (num_results <=? 100)%Z = true) as ->.
    { apply andb_true_iff. rewrite !Z.leb_le. lia. }
    cbn [negb]. unfold Search.log.
    cbn [Search.trace Search.search_results]. by rewrite <- !app_assoc.
Qed.

(** X7 for twenty results requested. *)
Lemma malformed_cache_raises_witness :
  get_bi_service_list 1 Sample.site false (Scrape.mkState (Some Malformed) [])
  = Some (Raised JSONDecodeError,
          Scrape.mkState (Some Malformed)
            ([] ++ [Print MsgScrapeFromCache; OpenRead bi_services_json]))
  ∧ get_google_search_results 1 Sample.world (of_ascii "BI") 20 false
      (Search.mkState (Some Malformed) [])
    = Some (Raised JSONDecodeError,
            Search.mkState (Some Malformed)
              ([] ++ [LoadDotenv; Print MsgSearchFromCache;
                      OpenRead search_results_json])).
Proof.
  apply (malformed_cache_raises Sample.site Sample.world (of_ascii "BI") 20 0
           [] []). lia.
Defined.

(** ** The search provider *)

Section SearchMore.

Variables (w : World) (query : str) (num_results : Z).

(** The request sent for the [j]-th chunk of ten results. *)
Local Abbreviation chunk_request j :=
  (HttpGetSearch (10 * Z.of_nat j + 1)
                 (Z.min 10 (num_results - 10 * Z.of_nat j))).

Lemma range_step_chunks :
  range_step 0 num_results 10
  = (λ j : nat, (10 * Z.of_nat j)%Z)
      <$> seq 0 (Z.to_nat ((num_results + 9) / 10)).
Proof.
  unfold range_step.
  replace (num_results - 0 + 10 - 1)%Z with (num_results + 9)%Z by lia.
  apply list_fmap_ext. intros _ j _. lia.
Qed.

(** The requests of the loop are those of consecutive chunks, the first
    of the chunks to visit first. *)
Lemma search_pages_requests (len a : nat) results tr :
  ∃ k : nat,
    k ≤ len ∧ (0 < len → 1 ≤ k)
    ∧ filter (λ e, is_http e = true)
        (search_pages w query num_results
           ((λ j : nat, (10 * Z.of_nat j)%Z) <$> seq a len) results tr).2
      = filter (λ e, is_http e = true) tr
        ++ ((λ j, chunk_request j) <$> seq a k).
Proof.
  revert a results tr. induction len as [|len IH]; intros a results tr.
  - exists 0. simpl. rewrite app_nil_r. split_and!; [lia..|done].
  - cbn [seq fmap list_fmap search_pages]. cbv zeta. cbn [start num].
    assert (∀ m, filter (λ e, is_http e = true)
                   ((tr ++ [chunk_request a]) ++ m)
                 = filter (λ e, is_http e = true) tr
                   ++ ((λ j, chunk_request j) <$> seq a 1)
                   ++ filter (λ e, is_http e = true) m) as Hone.
    { intros m. rewrite !filter_app, <- app_assoc. done. }
    destruct (api w _) as [e| |items].
    + exists 1. split_and!; [lia..|]. cbn [snd].
      rewrite Hone. simpl. by rewrite ?app_nil_r.
    + exists 1. split_and!; [lia..|]. cbn [snd].
      rewrite Hone. simpl. by rewrite ?app_nil_r.
    + destruct (_ <=? _)%Z.
      * exists 1. split_and!; [lia..|]. cbn [snd].
        rewrite <- (app_nil_r (tr ++ _)), Hone. simpl. by rewrite ?app_nil_r.
      * destruct (IH (S a) (results ++ items) (tr ++ [chunk_request a]))
          as (k & Hk & _ & ->).
        exists (S k). split_and!; [lia..|].
        rewrite filter_app, <- app_assoc. done.
Qed.

End SearchMore.

(** X8. A forced search for a valid count sends its requests for the
    chunks of ten results in order, from the first result on: at least one
    request and at most one per chunk of the requested count, each asking
    for between 1 and 10 results and for none beyond the requested count. *)
Theorem forced_search_requests (w : World) (query : str) (num_results : Z)
    (fuel : nat) (st : Search.State) :
  (1 ≤ num_results ≤ 100)%Z →
  ∃ (k : nat) outcome st',
    get_google_search_results (S fuel) w query num_results true st
    = Some (outcome, st')
    ∧ 1 ≤ k ≤ 10
    ∧ filter (λ e, is_http e = true) (Search.trace st')
      = filter (λ e, is_http e = true) (Search.trace st)
        ++ ((λ j : nat,
               HttpGetSearch (10 * Z.of_nat j + 1)
                 (Z.min 10 (num_results - 10 * Z.of_nat j))) <$> seq 0 k)
    ∧ ∀ j : nat, j < k →
        (1 ≤ Z.min 10 (num_results - 10 * Z.of_nat j) ≤ 10
         ∧ (10 * Z.of_nat j + 1)
           + Z.min 10 (num_results - 10 * Z.of_nat j) - 1 ≤ num_results)%Z.
Proof.
  intros Hnum. cbn [get_google_search_results].
  assert ((1 <=? num_results)%Z && (num_results <=? 100)%Z = true) as ->.
  { apply andb_true_iff. rewrite !Z.leb_le. lia. }
  cbn [negb]. rewrite range_step_chunks.
  destruct (search_pages_requests w query num_results
              (Z.to_nat ((num_results + 9) / 10)) 0 []
              (Search.trace
                 (Search.log (Print MsgForcedSearch) (Search.log LoadDotenv st))))
    as (k & Hk & Hpos & Hreq).
  destruct (search_pages _ _ _ _ _ _) as [results tr]. cbn [snd] in Hreq.
  assert (Z.of_nat k * 10 ≤ num_results + 9)%Z as Hchunks.
  { pose proof (Z.mul_div_le (num_results + 9) 10 ltac:(lia)). lia. }
  assert (1 ≤ (num_results + 9) / 10)%Z as Hfirst.
  { apply Z.div_le_lower_bound; lia. }
  exists k. eexists _, _. split_and!; [reflexivity|lia|lia| |intros j Hj; lia].
  cbn [Search.trace]. rewrite filter_app, Hreq.
  unfold Search.log. cbn [Search.trace].
  rewrite !filter_app. simpl. by rewrite !app_nil_r.
Qed.

(** X8 for 25 results requested. *)
Lemma forced_search_requests_witness :
  ∃ (k : nat) outcome st',
    get_google_search_results 1 Sample.world (of_ascii "BI") 25 true
      Sample.no_search_cache
    = Some (outcome, st')
    ∧ 1 ≤ k ≤ 10
    ∧ filter (λ e, is_http e = true) (Search.trace st')
      = filter (λ e, is_http e = true) (Search.trace Sample.no_search_cache)
        ++ ((λ j : nat,
               HttpGetSearch (10 * Z.of_nat j + 1)
                 (Z.min 10 (25 - 10 * Z.of_nat j))) <$> seq 0 k)
    ∧ ∀ j : nat, j < k →
        (1 ≤ Z.min 10 (25 - 10 * Z.of_nat j) ≤ 10
         ∧ (10 * Z.of_nat j + 1)
           + Z.min 10 (25 - 10 * Z.of_nat j) - 1 ≤ 25)%Z.
Proof.
  apply (forced_search_requests Sample.world (of_ascii "BI") 25 0
           Sample.no_search_cache). lia.
Defined.

Lemma valid_count_test (num_results : Z) :
  (1 ≤ num_results ≤ 100)%Z →
  (1 <=? num_results)%Z && (num_results <=? 100)%Z = true.
Proof. intros. apply andb_true_iff. rewrite !Z.leb_le. lia. Qed.

Lemma truncate_length (num_results : Z) (results : list SearchResult) :
  (0 ≤ num_results)%Z →
  (Z.of_nat (length (truncate num_results results)) ≤ num_results)%Z.
Proof. intros. unfold truncate. rewrite length_take. lia. Qed.

(** X9. With a call stack two deep every call ends, and a list it returns
    has at most [num_results] items and at most 100, whatever the cache
    file holds and whatever the search service answers. *)
Theorem search_result_bound (w : World) (query : str) (num_results : Z)
    (forced : bool) (fuel : nat) (st : Search.State) :
  2 ≤ fuel →
  ∃ outcome st',
    get_google_search_results fuel w query num_results forced st
    = Some (outcome, st')
    ∧ ∀ results, outcome = Returned results →
        (Z.of_nat (length results) ≤ Z.max 0 num_results)%Z
        ∧ length results ≤ 100.
Proof.
  intros Hfuel. destruct fuel as [|[|fuel]]; [lia..|].
  cbn [get_google_search_results].
  destruct ((1 <=? num_results)%Z && (num_results <=? 100)%Z) eqn:Hok;
    cbn [negb].
  - apply andb_true_iff in Hok. rewrite !Z.leb_le in Hok.
    assert (∀ l, (Z.of_nat (length (truncate num_results l))
                  ≤ Z.max 0 num_results)%Z
                 ∧ length (truncate num_results l) ≤ 100) as Hcut.
    { intros l. pose proof (truncate_length num_results l). lia. }
    destruct forced.
    + destruct (search_pages _ _ _ _ _ _) as [results tr].
      eexists _, _. split; [reflexivity|]. by intros ? [= <-].
    + destruct st as [cache tr0]. unfold Search.log.
      cbn [Search.search_results Search.trace].
      destruct cache as [[cached|]|].
      * eexists _, _. split; [reflexivity|]. by intros ? [= <-].
      * eexists _, _. split; [reflexivity|]. by intros ? [=].
      * destruct (search_pages _ _ _ _ _ _) as [results tr].
        eexists _, _. split; [reflexivity|]. by intros ? [= <-].
  - eexists _, _. split; [reflexivity|]. intros ? [= <-]. simpl. lia.
Qed.

(** X9 for a forced search of 25 results. *)
Lemma search_result_bound_witness :
  ∃ outcome st',
    get_google_search_results 2 Sample2.obliging (of_ascii "BI") 25 true
      Sample.no_search_cache
    = Some (outcome, st')
    ∧ ∀ results, outcome = Returned results →
        (Z.of_nat (length results) ≤ Z.max 0 25)%Z
        ∧ length results ≤ 100.
Proof.
  apply (search_result_bound Sample2.obliging (of_ascii "BI") 25 true 2
           Sample.no_search_cache). lia.
Defined.

Lemma range_step_first (num_results : Z) :
  (1 ≤ num_results)%Z →
  ∃ rest, range_step 0 num_results 10 = 0%Z :: rest.
Proof.
  intros Hnum. rewrite range_step_chunks.
  assert (1 ≤ (num_results + 9) / 10)%Z as Hfirst.
  { apply Z.div_le_lower_bound; lia. }
  destruct (Z.to_nat ((num_results + 9) / 10)) as [|m] eqn:Hm; [lia|].
  eexists. reflexivity.
Qed.

(** X10. When the first request of a forced search fails or its answer
    has no items, no second request is sent, the call returns the empty
    list, and the cache file is replaced by an empty list whatever it
    held. *)
Theorem forced_search_first_failure (w : World) (query : str)
    (num_results : Z) (fuel : nat) (st : Search.State) (m : Message) :
  (1 ≤ num_results ≤ 100)%Z →
  let first := mkParams (CUSTOM_SEARCH_API_KEY w) (CX_ID_KEY w) query 1
                        (Z.min 10 num_results) in
  ((∃ e, api w first = Failed e ∧ m = MsgSearchFailed e)
   ∨ (api w first = NoItems ∧ m = MsgNoItems 1)) →
  get_google_search_results (S fuel) w query num_results true st
  = Some (Returned [],
          Search.mkState (Some (Parsed []))
            (Search.trace st
             ++ [LoadDotenv; Print MsgForcedSearch;
                 HttpGetSearch 1 (Z.min 10 num_results);
                 Print m; OpenWrite search_results_json])).
Proof.
  intros Hnum first Hfirst. cbn [get_google_search_results].
  rewrite valid_count_test by done. cbn [negb].
  destruct (range_step_first num_results) as (rest & ->); [lia|].
  cbn [search_pages]. cbv zeta. cbn [start num].
  replace (num_results - 0)%Z with num_results by lia.
  change (0 + 1)%Z with 1%Z. fold first.
  unfold truncate, Search.log. cbn [Search.trace Search.search_results].
  destruct Hfirst as [(e & -> & ->)|[-> ->]];
    rewrite take_nil, <- !app_assoc; reflexivity.
Qed.

(** X10 on a search service that is down, over a cache file that held one
    result. *)
Lemma forced_search_first_failure_witness :
  get_google_search_results 1 Sample2.down (of_ascii "BI") 20 true
    (Search.mkState (Some (Parsed [Sample.tableau])) [])
  = Some (Returned [],
          Search.mkState (Some (Parsed []))
            ([] ++ [LoadDotenv; Print MsgForcedSearch;
                    HttpGetSearch 1 (Z.min 10 20);
                    Print (MsgSearchFailed RequestException);
                    OpenWrite search_results_json])).
Proof.
  apply (forced_search_first_failure Sample2.down (of_ascii "BI") 20 0
           (Search.mkState (Some (Parsed [Sample.tableau])) [])
           (MsgSearchFailed RequestException)); [lia|].
  left. by exists RequestException.
Defined.

(** X11. After a forced search for [n] results, a call without [forced]
    for [m ≤ n] results returns the first [m] of the results the forced
    call returned, from the cache file alone: it sends no request,
    whatever the service would answer, and leaves the file as it is. *)
Theorem search_round_trip (w w' : World) (query query' : str) (n m : Z)
    (fuel fuel' : nat) (st : Search.State) :
  (1 ≤ m ≤ n)%Z → (n ≤ 100)%Z →
  ∃ results st1 st2,
    get_google_search_results (S fuel) w query n true st
    = Some (Returned results, st1)
    ∧ get_google_search_results (S fuel') w' query' m false st1
      = Some (Returned (take (Z.to_nat m) results), st2)
    ∧ search_results st2 = search_results st1
    ∧ filter (λ e, is_http e = true) (Search.trace st2)
      = filter (λ e, is_http e = true) (Search.trace st1).
Proof.
  intros Hm Hn. cbn [get_google_search_results].
  rewrite !valid_count_test by lia. cbn [negb].
  destruct (search_pages _ _ _ _ _ _) as [results tr].
  eexists _, _, _. split; [reflexivity|].
  unfold Search.log. cbn [Search.trace Search.search_results].
  split.
  { unfold truncate. rewrite take_take.
    replace (Z.to_nat m `min` Z.to_nat n) with (Z.to_nat m) by lia.
    reflexivity. }
  split; [reflexivity|].
  cbn [Search.trace]. rewrite !filter_app. simpl. by rewrite !app_nil_r.
Qed.

(** X11 for a forced search of 25 results followed by a call for 7. *)
Lemma search_round_trip_witness :
  ∃ results st1 st2,
    get_google_search_results 1 Sample2.obliging (of_ascii "BI") 25 true
      Sample.no_search_cache
    = Some (Returned results, st1)
    ∧ get_google_search_results 1 Sample2.down (of_ascii "BI") 7 false st1
      = Some (Returned (take (Z.to_nat 7) results), st2)
    ∧ search_results st2 = search_results st1
    ∧ filter (λ e, is_http e = true) (Search.trace st2)
      = filter (λ e, is_http e = true) (Search.trace st1).
Proof.
  apply (search_round_trip Sample2.obliging Sample2.down (of_ascii "BI")
           (of_ascii "BI") 25 7 0 0 Sample.no_search_cache); lia.
Defined.

Section SearchFull.

Variables (w : World) (query : str) (num_results : Z).

(** Every request is answered with as many items as it asks for. *)
Hypothesis Hfull :
  ∀ p, (1 ≤ num p ≤ 10)%Z →
       ∃ items, api w p = Items items ∧ Z.of_nat (length items) = num p.

Lemma search_pages_full (len a : nat) results tr :
  Z.of_nat (length results) = (10 * Z.of_nat a)%Z →
  (10 * Z.of_nat (a + len) < num_results ≤ 10 * Z.of_nat (a + S len))%Z →
  Z.of_nat (length (search_pages w query num_results
                      ((λ j : nat, (10 * Z.of_nat j)%Z) <$> seq a (S len))
                      results tr).1) = num_results
  ∧ filter (λ e, is_http e = true)
      (search_pages w query num_results
         ((λ j : nat, (10 * Z.of_nat j)%Z) <$> seq a (S len)) results tr).2
    = filter (λ e, is_http e = true) tr
      ++ ((λ j : nat,
             HttpGetSearch (10 * Z.of_nat j + 1)
               (Z.min 10 (num_results - 10 * Z.of_nat j))) <$> seq a (S len)).
Proof.
  revert a results tr. induction len as [|len IH]; intros a results tr Hlen Hn.
  - rewrite <- (cons_seq _ a), fmap_cons. cbn [search_pages]. cbv zeta. cbn [start num].
    destruct (Hfull (mkParams (CUSTOM_SEARCH_API_KEY w) (CX_ID_KEY w) query
                       (10 * Z.of_nat a + 1)
                       (Z.min 10 (num_results - 10 * Z.of_nat a))))
      as (items & -> & Hitems); [cbn [num]; lia|]. cbn [num] in Hitems.
    assert ((num_results <=? Z.of_nat (length (results ++ items)))%Z = true) as ->.
    { apply Z.leb_le. rewrite length_app. lia. }
    cbn [fst snd fmap list_fmap]. split.
    + rewrite length_app. lia.
    + by rewrite filter_app.
  - rewrite <- (cons_seq _ a), fmap_cons. cbn [search_pages]. cbv zeta. cbn [start num].
    destruct (Hfull (mkParams (CUSTOM_SEARCH_API_KEY w) (CX_ID_KEY w) query
                       (10 * Z.of_nat a + 1)
                       (Z.min 10 (num_results - 10 * Z.of_nat a))))
      as (items & -> & Hitems); [cbn [num]; lia|]. cbn [num] in Hitems.
    assert ((num_results <=? Z.of_nat (length (results ++ items)))%Z = false) as ->.
    { apply Z.leb_gt. rewrite length_app. lia. }
    destruct (IH (S a) (results ++ items)
                (tr ++ [HttpGetSearch (10 * Z.of_nat a + 1)
                          (Z.min 10 (num_results - 10 * Z.of_nat a))]))
      as [Hres Hreq].
    { rewrite length_app. lia. }
    { lia. }
    split; [exact Hres|].
    rewrite Hreq, filter_app, <- app_assoc. done.
Qed.

End SearchFull.

(** X12. When the service answers every request for 1 to 10 items with
    as many items as asked, a forced search for a valid count [n] sends one request per
    chunk of ten, ⌈n/10⌉ in all, returns exactly [n] results and writes
    exactly those to the cache file. *)
Theorem forced_search_full (w : World) (query : str) (num_results : Z)
    (fuel : nat) (st : Search.State) :
  (1 ≤ num_results ≤ 100)%Z →
  (∀ p, (1 ≤ num p ≤ 10)%Z →
        ∃ items, api w p = Items items ∧ Z.of_nat (length items) = num p) →
  ∃ results tr,
    get_google_search_results (S fuel) w query num_results true st
    = Some (Returned results, Search.mkState (Some (Parsed results)) tr)
    ∧ Z.of_nat (length results) = num_results
    ∧ filter (λ e, is_http e = true) tr
      = filter (λ e, is_http e = true) (Search.trace st)
        ++ ((λ j : nat,
               HttpGetSearch (10 * Z.of_nat j + 1)
                 (Z.min 10 (num_results - 10 * Z.of_nat j)))
              <$> seq 0 (Z.to_nat ((num_results + 9) / 10))).
Proof.
  intros Hnum Hfull. cbn [get_google_search_results].
  rewrite valid_count_test by done. cbn [negb]. rewrite range_step_chunks.
  assert (∃ len, Z.to_nat ((num_results + 9) / 10) = S len
                 ∧ (10 * Z.of_nat len < num_results ≤ 10 * Z.of_nat (S len))%Z)
    as (len & -> & Hlen).
  { exists (Z.to_nat ((num_results + 9) / 10 - 1)).
    pose proof (Z.mul_div_le (num_results + 9) 10 ltac:(lia)).
    pose proof (Z.mul_succ_div_gt (num_results + 9) 10 ltac:(lia)).
    assert (1 ≤ (num_results + 9) / 10)%Z
      by (apply Z.div_le_lower_bound; lia).
    split; lia. }
  destruct (search_pages_full w query num_results Hfull len 0 []
              (Search.trace
                 (Search.log (Print MsgForcedSearch) (Search.log LoadDotenv st))))
    as [Hres Hreq]; [done|simpl; lia|].
  destruct (search_pages _ _ _ _ _ _) as [results tr]. cbn [fst snd] in *.
  exists results. eexists. split_and!.
  - unfold truncate. rewrite take_ge by lia. reflexivity.
  - done.
  - rewrite filter_app, Hreq. unfold Search.log. cbn [Search.trace].
    rewrite !filter_app. simpl. by rewrite !app_nil_r.
Qed.

(** X12 for 25 results requested: three requests, for 10, 10 and 5. *)
Lemma forced_search_full_witness :
  ∃ results tr,
    get_google_search_results 1 Sample2.obliging (of_ascii "BI") 25 true
      Sample.no_search_cache
    = Some (Returned results, Search.mkState (Some (Parsed results)) tr)
    ∧ Z.of_nat (length results) = 25%Z
    ∧ filter (λ e, is_http e = true) tr
      = filter (λ e, is_http e = true) (Search.trace Sample.no_search_cache)
        ++ ((λ j : nat,
               HttpGetSearch (10 * Z.of_nat j + 1)
                 (Z.min 10 (25 - 10 * Z.of_nat j)))
              <$> seq 0 (Z.to_nat ((25 + 9) / 10))).
Proof.
  apply (forced_search_full Sample2.obliging (of_ascii "BI") 25 0
           Sample.no_search_cache); [lia|].
  intros p Hp. eexists. split; [reflexivity|].
  rewrite length_replicate. lia.
Defined.

(** ** Recall against the search index *)

Section RecallMore.

Variable lower : str → str.

(** A name is known by search when it is one of the names checked and a
    result mentions it. *)
Lemma known_by_search_elem (services_list : list str)
    (search_results : list SearchResult) (n : str) :
  n ∈ known_set (check_services_in_search lower services_list search_results)
  ↔ n ∈ services_list ∧ existsb (mentions lower n) search_results = true.
Proof.
  rewrite known_set_elem, check_services_in_search_fmap, list_elem_of_fmap.
  split.
  - intros (n' & [= -> Hk] & Hin). done.
  - intros [Hin Hk]. exists n. by rewrite Hk.
Qed.

End RecallMore.

Lemma size_list_to_set_le (l : list str) :
  size (list_to_set l : gset str) ≤ length l.
Proof.
  induction l as [|x l IH].
  - rewrite list_to_set_nil, size_empty. done.
  - rewrite list_to_set_cons, size_union_alt, size_singleton. simpl.
    pose proof (subseteq_size (list_to_set l ∖ {[x]}) (list_to_set l : gset str)
                  ltac:(set_solver)).
    lia.
Qed.

(** A set splits into what lies outside and what lies inside another. *)
Lemma size_split (X Y : gset str) : size (X ∖ Y) + size (X ∩ Y) = size X.
Proof.
  rewrite <- size_union by set_solver. f_equal.
  apply set_eq. intros x. set_unfold.
  destruct (decide (x ∈ Y)); tauto.
Qed.


(** X13. With no search result at all every name is marked unknown, the
    set known by search is empty, and the diagram counts every name known
    by recall as known by recall only. *)
Theorem no_search_results (lower : str → str) (services_list : list str)
    (set_gemini : gset str) :
  check_services_in_search lower services_list []
  = (λ service, mkService service false) <$> services_list
  ∧ known_set (check_services_in_search lower services_list []) = ∅
  ∧ venn_labels set_gemini
      (known_set (check_services_in_search lower services_list []))
    = mkVenn (size set_gemini) 0 0.
Proof.
  assert (known_set (check_services_in_search lower services_list []) = ∅)
    as Hempty.
  { apply set_eq. intros n. rewrite known_by_search_elem. simpl.
    split; [by intros [_ ?]|by intros ?%not_elem_of_empty]. }
  split_and!; [apply check_services_in_search_fmap|done|].
  rewrite Hempty. unfold venn_labels.
  rewrite difference_empty_L.
  replace (∅ ∖ set_gemini) with (∅ : gset str) by set_solver.
  replace (set_gemini ∩ ∅) with (∅ : gset str) by set_solver.
  by rewrite size_empty.
Qed.

(** X14. The names known by search from two lists of results put end to
    end are those known from the one or from the other: more results never
    make a name unknown. *)
Theorem known_by_search_app (lower : str → str) (services_list : list str)
    (results1 results2 : list SearchResult) :
  known_set (check_services_in_search lower services_list (results1 ++ results2))
  = known_set (check_services_in_search lower services_list results1)
    ∪ known_set (check_services_in_search lower services_list results2).
Proof.
  apply set_eq. intros n.
  rewrite elem_of_union, !known_by_search_elem, existsb_app, orb_true_iff.
  tauto.
Qed.

(** X15. Every name known by search is one of the names checked, so the
    search circle of the diagram never counts more names than were
    checked. *)
Theorem known_by_search_bounded (lower : str → str) (services_list : list str)
    (search_results : list SearchResult) (set_gemini : gset str) :
  let set_search :=
    known_set (check_services_in_search lower services_list search_results) in
  set_search ⊆ list_to_set services_list
  ∧ label_01 (venn_labels set_gemini set_search)
    + label_11 (venn_labels set_gemini set_search) ≤ length services_list.
Proof.
  intros set_search.
  assert (set_search ⊆ list_to_set services_list) as Hsub.
  { intros n Hn. apply known_by_search_elem in Hn as [Hn _].
    by apply elem_of_list_to_set. }
  split; [done|].
  cbn [venn_labels label_01 label_11].
  replace (set_gemini ∩ set_search) with (set_search ∩ set_gemini)
    by set_solver.
  rewrite size_split.
  etrans; [apply subseteq_size, Hsub|apply size_list_to_set_le].
Qed.

(** X16. The two circles of the diagram have the sizes of the two sets:
    recall-only plus both is the number of names known by recall,
    search-only plus both the number known by search. *)
Theorem venn_labels_marginals (set_gemini set_search : gset str) :
  label_10 (venn_labels set_gemini set_search)
  + label_11 (venn_labels set_gemini set_search) = size set_gemini
  ∧ label_01 (venn_labels set_gemini set_search)
    + label_11 (venn_labels set_gemini set_search) = size set_search.
Proof.
  cbn [venn_labels label_10 label_01 label_11]. split.
  - apply size_split.
  - replace (set_gemini ∩ set_search) with (set_search ∩ set_gemini)
      by set_solver.
    apply size_split.
Qed.

(** ** The post-filter and the names sent on for details *)

Lemma remove_unknown_services_app (l1 l2 : list Service) :
  remove_unknown_services (l1 ++ l2)
  = remove_unknown_services l1 ++ remove_unknown_services l2.
Proof. unfold remove_unknown_services. by rewrite filter_app, fmap_app. Qed.

(** X17. The names passed on to the detail request are those of the raw
    records that have a name, not empty, and the boolean true: a record
    without a boolean is not taken for a known service, and no empty name
    is passed on. *)
Theorem known_names_of_answer (response : list RawService) (n : str) :
  n ∈ remove_unknown_services (post_filter response)
  ↔ n ≠ [] ∧ ∃ item, item ∈ response
      ∧ raw_service_name item = Some n ∧ raw_know item = Some true.
Proof.
  induction response as [|item response IH].
  - split; [by intros ?%elem_of_nil|].
    by intros (_ & ? & ?%elem_of_nil & _).
  - rewrite post_filter_cons, remove_unknown_services_app, elem_of_app, IH.
    unfold post_filter_step. split.
    + intros [Hn|(Hne & it & Hin & H)].
      * destruct (raw_service_name item) as [[|c name]|] eqn:Hname,
          (raw_know item) as [[|]|] eqn:Hknow; simpl in Hn;
          try by apply elem_of_nil in Hn.
        apply list_elem_of_singleton in Hn as ->.
        split; [done|]. exists item. split; [by left|done].
      * split; [done|]. exists it. split; [by right|done].
    + intros (Hne & it & Hin & Hname & Hknow).
      apply elem_of_cons in Hin as [->|Hin].
      * left. rewrite Hname, Hknow. destruct n; [done|]. simpl. by left.
      * right. split; [done|]. by exists it.
Qed.

(** X18. The post-filter never adds a record: its output is no longer
    than the answer, and as long exactly when every raw record has a
    non-empty name and a boolean. *)
Theorem post_filter_length (response : list RawService) :
  length (post_filter response) ≤ length response
  ∧ (length (post_filter response) = length response
     ↔ ∀ item, item ∈ response →
         truthy (raw_service_name item) = true ∧ raw_know item ≠ None).
Proof.
  induction response as [|item response [IHle IHeq]].
  - split; [done|]. split; [|done]. by intros _ ? ?%elem_of_nil.
  - rewrite post_filter_cons, length_app. unfold post_filter_step.
    destruct (raw_service_name item) as [[|c name]|] eqn:Hname,
      (raw_know item) as [b|] eqn:Hknow; simpl;
      (split; [lia|]); split.
    all: try (intros Heq; lia).
    all: try (intros Hall;
              destruct (Hall item ltac:(by left)) as [Ht Hk];
              rewrite ?Hname, ?Hknow in *; simpl in *; congruence).
    + intros Heq item' [->|Hin]%elem_of_cons.
      * by rewrite Hname, Hknow.
      * apply IHeq; [lia|done].
    + intros Hall. f_equal. apply IHeq.
      intros item' Hin. apply Hall. by right.
Qed.

(** ** Score completion *)

Section ZeroFillMore.

Implicit Types (names seen : list str) (scores : list ServiceScore).

Lemma appended_nil seen names :
  (∀ n, n ∈ names → n ∈ seen) → appended seen names = [].
Proof.
  induction names as [|x names IH]; intros Hall; simpl; [done|].
  rewrite decide_True by (apply Hall; by left).
  apply IH. intros n Hn. apply Hall. by right.
Qed.

Lemma appended_all seen names :
  NoDup names → (∀ n, n ∈ names → n ∉ seen) → appended seen names = names.
Proof.
  revert seen. induction names as [|x names IH]; intros seen Hnd Hnew; simpl.
  - done.
  - apply NoDup_cons in Hnd as [Hx Hnd].
    rewrite decide_False by (apply Hnew; by left).
    f_equal. apply IH; [done|].
    intros n Hn. rewrite not_elem_of_app, list_elem_of_singleton. split.
    + apply Hnew. by right.
    + intros ->. done.
Qed.

Lemma zero_fill_covers names scores n :
  n ∈ names → n ∈ Details.service_name <$> zero_fill names scores.
Proof.
  intros Hn. rewrite zero_fill_appended, fmap_app, elem_of_app.
  destruct (decide (n ∈ Details.service_name <$> scores)); [by left|].
  right. rewrite <- list_fmap_compose.
  apply list_elem_of_fmap. exists n. split; [done|].
  by apply appended_elem.
Qed.

(** The zero records of one name among those of distinct names. *)
Lemma zero_records_of n (zs : list str) :
  NoDup zs →
  filter (λ r, Details.service_name r = n) (zero_record <$> zs)
  = if decide (n ∈ zs) then [zero_record n] else [].
Proof.
  induction 1 as [|z zs Hz Hnd IH]; [done|].
  rewrite fmap_cons, filter_cons, IH. cbn [zero_record Details.service_name].
  destruct (decide (z = n)) as [->|Hne];
    destruct (decide (n ∈ zs)) as [Hin|Hin];
    destruct (decide (n ∈ _ :: zs)) as [Hin'|Hin']; try done.
  - exfalso. apply Hin'. by left.
  - exfalso. apply Hin'. by right.
  - exfalso. apply elem_of_cons in Hin' as [->|?]; done.
Qed.

Lemma no_records_of n scores :
  n ∉ Details.service_name <$> scores →
  filter (λ r, Details.service_name r = n) scores = [].
Proof.
  induction scores as [|r scores IH]; [done|].
  rewrite fmap_cons, not_elem_of_cons. intros [Hne Hnot].
  rewrite filter_cons, decide_False by done. by apply IH.
Qed.

End ZeroFillMore.

(** X19. Completing a list that was already completed for the same names
    changes nothing. *)
Theorem zero_fill_idempotent (names : list str) (scores : list ServiceScore) :
  zero_fill names (zero_fill names scores) = zero_fill names scores.
Proof.
  rewrite (zero_fill_appended names (zero_fill names scores)).
  rewrite appended_nil; [by rewrite app_nil_r|].
  intros n. apply zero_fill_covers.
Qed.

(** X20. Whatever the two lists are, every listed name has a record in
    the completed list, no scored record is lost, and at most one record
    per listed name is added. *)
Theorem zero_fill_covers_names (names : list str) (scores : list ServiceScore) :
  (∀ n, n ∈ names → n ∈ names_of (zero_fill names scores))
  ∧ (∀ r, r ∈ scores → r ∈ zero_fill names scores)
  ∧ length scores ≤ length (zero_fill names scores)
    ≤ length scores + length names.
Proof.
  split_and!.
  - intros n. apply zero_fill_covers.
  - intros r Hr. rewrite zero_fill_appended, elem_of_app. by left.
  - rewrite zero_fill_appended, length_app. lia.
  - rewrite zero_fill_appended, length_app, length_fmap.
    pose proof (sublist_length _ _ (appended_sublist (names_of scores) names)).
    lia.
Qed.

(** X21. The records of one listed name in the completed list: the
    records it had among the scores when it had any, and the single record
    of score 0.0 when it had none. A name already scored gets no record of
    score 0.0 added. *)
Theorem zero_fill_records_of (names : list str) (scores : list ServiceScore)
    (n : str) :
  n ∈ names →
  filter (λ r, Details.service_name r = n) (zero_fill names scores)
  = if decide (n ∈ names_of scores)
    then filter (λ r, Details.service_name r = n) scores
    else [zero_record n].
Proof.
  intros Hn. rewrite zero_fill_appended, filter_app.
  rewrite zero_records_of by apply appended_NoDup.
  destruct (decide (n ∈ names_of scores)) as [Hin|Hin].
  - rewrite decide_False; [by rewrite app_nil_r|].
    rewrite appended_elem. tauto.
  - rewrite decide_True by (by apply appended_elem).
    by rewrite no_records_of.
Qed.

(** X21 at the names [A; B; C] with scores for [A] and [B], for the
    name [C]. *)
Lemma zero_fill_records_of_witness :
  let names := [of_ascii "A"; of_ascii "B"; of_ascii "C"] in
  let scores := [mkScore (of_ascii "A") 4%float; mkScore (of_ascii "B") 2%float] in
  filter (λ r, Details.service_name r = of_ascii "C") (zero_fill names scores)
  = if decide (of_ascii "C" ∈ names_of scores)
    then filter (λ r, Details.service_name r = of_ascii "C") scores
    else [zero_record (of_ascii "C")].
Proof.
  apply zero_fill_records_of. vm_compute. set_solver.
Defined.

(** X22. When the listed names are distinct and none of them has a score,
    the completed list is the scores followed by one record of score 0.0
    per listed name, in the order of the list; with no score at all it is
    one such record per name. *)
Theorem zero_fill_all_missing (names : list str) (scores : list ServiceScore) :
  NoDup names →
  (∀ n, n ∈ names → n ∉ names_of scores) →
  zero_fill names scores = scores ++ (zero_record <$> names).
Proof.
  intros Hnd Hnew. by rewrite zero_fill_appended, appended_all.
Qed.

(** X22 at the names [A; B] with no score. *)
Lemma zero_fill_all_missing_witness :
  zero_fill [of_ascii "A"; of_ascii "B"] []
  = [] ++ (zero_record <$> [of_ascii "A"; of_ascii "B"]).
Proof.
  apply zero_fill_all_missing.
  - vm_compute. repeat constructor; set_solver.
  - intros n _. apply not_elem_of_nil.
Defined.

(** ** The script of details_services.py *)

(** X23. When the script gets as far as a result, the scores file is the
    last thing written and holds that result; the result is the verifier's
    scores followed by records of score 0.0, it has a record for every
    name of the service list, and details were requested only for names
    of raw records marked true. *)
Theorem main_result (llm : Pipeline.Llm) (service_list : list str)
    (result : list ServiceScore) (steps : list Pipeline.Step) :
  Pipeline.main llm service_list = (Returned result, steps) →
  ∃ response details scores,
    Pipeline.recall llm service_list = Some response
    ∧ Pipeline.describe llm (remove_unknown_services (post_filter response))
      = Some details
    ∧ Pipeline.verify llm details = Some scores
    ∧ result = zero_fill service_list scores
    ∧ (∀ n, n ∈ service_list → n ∈ names_of result)
    ∧ steps = [Pipeline.AskRecall service_list;
               Pipeline.AskDetails
                 (remove_unknown_services (post_filter response));
               Pipeline.WriteDetails details;
               Pipeline.AskScores details;
               Pipeline.WriteScores result].
Proof.
  unfold Pipeline.main, get_services_from_gemini,
    Pipeline.get_service_details_from_gemini, Pipeline.check_details.
  destruct (Pipeline.recall llm service_list) as [response|] eqn:Hrecall;
    [|done].
  destruct (Pipeline.describe llm _) as [details|] eqn:Hdescribe; [|done].
  destruct (Pipeline.verify llm details) as [scores|] eqn:Hverify; [|done].
  intros [= <- <-]. exists response, details, scores.
  split_and!; try done.
  intros n. apply zero_fill_covers.
Qed.

(** X23 with the sample model on the names [A; B; C]. *)
Lemma main_result_witness :
  let result := [mkScore (of_ascii "A") 4%float; mkScore (of_ascii "B") 2%float;
                 mkScore (of_ascii "C") 0%float] in
  ∃ response details scores,
    Pipeline.recall Sample3.llm Sample3.names = Some response
    ∧ Pipeline.describe Sample3.llm
        (remove_unknown_services (post_filter response))
      = Some details
    ∧ Pipeline.verify Sample3.llm details = Some scores
    ∧ result = zero_fill Sample3.names scores
    ∧ (∀ n, n ∈ Sample3.names → n ∈ names_of result)
    ∧ (Pipeline.main Sample3.llm Sample3.names).2
      = [Pipeline.AskRecall Sample3.names;
         Pipeline.AskDetails (remove_unknown_services (post_filter response));
         Pipeline.WriteDetails details;
         Pipeline.AskScores details;
         Pipeline.WriteScores result].
Proof.
  apply (main_result Sample3.llm Sample3.names). reflexivity.
Defined.


